(** * use-form: the form-state engine of mantine-form

    A shallow embedding of [src/mantine-form/src/use-form.ts] and a
    verification of its state-transition operations: the error store,
    the value store, the list-field operations, submission and the
    list-item input binding.

    JavaScript values are modelled as an inductive type in which every
    array and object carries the reference it was allocated at, so that
    "the same object" and "an equal object" are different statements.
    React state cells are modelled as a store; the closures of one render
    read a snapshot of it and queue updaters against it. *)

From stdpp Require Import base list strings pretty.

Open Scope Z_scope.

(* ===================================================================== *)
(** ** JavaScript values *)
(* ===================================================================== *)

(** A reference: the identity of an allocated array or object. *)
Definition Ref := nat.

(** Numbers are integer valued here; arrays are dense.  [tag] of an array
    is the form-list mark put there by [formList]. *)
#[warnings="-register-all"]
Inductive Value : Type :=
  | VUndefined
  | VNull
  | VBool (b : bool)
  | VNum (n : Z)
  | VStr (s : string)
  | VArr (ref : Ref) (tag : bool) (items : list Value)
  | VObj (ref : Ref) (props : list (string * Value)).

(** The property list of an object: insertion ordered, keys unique. *)
Definition Props := list (string * Value).

(** An object held in a state cell ([values : T], [errors : FormErrors]). *)
Record JsObject : Type := mkObj { obj_ref : Ref; obj_props : Props }.

Definition to_value (o : JsObject) : Value := VObj (obj_ref o) (obj_props o).

Inductive JsError : Type :=
  | TypeError.

(** What a call does: it returns, or it raises. *)
Inductive Outcome (A : Type) : Type :=
  | Ok (a : A)
  | Throw (e : JsError).
Arguments Ok {A} a.
Arguments Throw {A} e.

(** [!!v]: JavaScript truthiness. *)
Definition truthy (v : Value) : bool :=
  match v with
  | VUndefined | VNull => false
  | VBool b => b
  | VNum n => negb (n =? 0)
  | VStr s => negb (String.eqb s "")
  | VArr _ _ _ | VObj _ _ => true
  end.

(** [v !== undefined]. *)
Definition is_defined (v : Value) : bool :=
  match v with
  | VUndefined => false
  | _ => true
  end.

(* --------------------------------------------------------------------- *)
(** *** Property lists *)

Fixpoint props_get (ps : Props) (k : string) : Value :=
  match ps with
  | [] => VUndefined
  | (k', v) :: rest => if String.eqb k k' then v else props_get rest k
  end.

Fixpoint props_has (ps : Props) (k : string) : bool :=
  match ps with
  | [] => false
  | (k', _) :: rest => if String.eqb k k' then true else props_has rest k
  end.

(** [o[k] = v] on a property list: an existing key keeps its place, a new
    key goes last. *)
Fixpoint props_set (ps : Props) (k : string) (v : Value) : Props :=
  match ps with
  | [] => [(k, v)]
  | (k', v') :: rest =>
      if String.eqb k k' then (k', v) :: rest
      else (k', v') :: props_set rest k v
  end.

(** [delete o[k]]. *)
Fixpoint props_delete (ps : Props) (k : string) : Props :=
  match ps with
  | [] => []
  | (k', v') :: rest =>
      if String.eqb k k' then props_delete rest k
      else (k', v') :: props_delete rest k
  end.

(** The key a number is turned into when it is used as a property name. *)
Definition key_of_index (i : Z) : string := pretty i.

Fixpoint indexed_from (n : nat) (vs : list Value) : Props :=
  match vs with
  | [] => []
  | v :: rest => (pretty n, v) :: indexed_from (S n) rest
  end.

Fixpoint chars_of (s : string) : list Value :=
  match s with
  | EmptyString => []
  | String c rest => VStr (String c EmptyString) :: chars_of rest
  end.

(** The own enumerable properties of a value: what [{...v}] copies and
    what [v[k]] can find.  Members inherited from a prototype are not
    part of the model. *)
Definition own_props (v : Value) : Props :=
  match v with
  | VUndefined | VNull | VBool _ | VNum _ => []
  | VStr s => indexed_from 0 (chars_of s)
  | VArr _ _ items => indexed_from 0 items
  | VObj _ ps => ps
  end.

(** [v[k]] for a string key: reading a property of [undefined] or [null]
    raises. *)
Definition get_field (v : Value) (k : string) : Outcome Value :=
  match v with
  | VUndefined | VNull => Throw TypeError
  | _ => Ok (props_get (own_props v) k)
  end.

(** [items[i]] of an array's element list. *)
Definition arr_get (items : list Value) (i : Z) : Value :=
  if i <? 0 then VUndefined else nth (Z.to_nat i) items VUndefined.

(** [v[i]] for a numeric index. *)
Definition get_index (v : Value) (i : Z) : Outcome Value :=
  match v with
  | VUndefined | VNull => Throw TypeError
  | VArr _ _ items => Ok (arr_get items i)
  | _ => Ok (props_get (own_props v) (key_of_index i))
  end.

(** [v?.[i]] and [v?.[k]]: optional chaining stops at [undefined]/[null]. *)
Definition opt_index (v : Value) (i : Z) : Value :=
  match get_index v i with
  | Ok x => x
  | Throw _ => VUndefined
  end.

Definition opt_field (v : Value) (k : string) : Value :=
  match get_field v k with
  | Ok x => x
  | Throw _ => VUndefined
  end.

Definition obj_get (o : JsObject) (k : string) : Value := props_get (obj_props o) k.
Definition obj_has (o : JsObject) (k : string) : bool := props_has (obj_props o) k.

(* --------------------------------------------------------------------- *)
(** *** Array primitives *)

(** [cloned[i] = v]: inside the array it replaces, past the end it grows
    the array (the gap reads [undefined]), a negative index is not an
    element. *)
Definition arr_set (items : list Value) (i : Z) (v : Value) : list Value :=
  if i <? 0 then items
  else
    let n := Z.to_nat i in
    if (n <? length items)%nat then <[n := v]> items
    else items ++ replicate (n - length items)%nat VUndefined ++ [v].

(** [Array.prototype.splice(start, deleteCount, ...ins)], the array left
    behind.  [start] counts from the end when negative and is clamped to
    the array; [deleteCount] is clamped to what is there. *)
Definition splice (items : list Value) (start count : Z) (ins : list Value) : list Value :=
  let len := Z.of_nat (length items) in
  let s := if start <? 0 then Z.max (len + start) 0 else Z.min start len in
  let c := Z.min (Z.max count 0) (len - s) in
  take (Z.to_nat s) items ++ ins ++ drop (Z.to_nat (s + c)) items.

(** [items.filter((item, index) => keep item index)]. *)
Fixpoint filter_from (keep : Value -> Z -> bool) (i : Z) (items : list Value) : list Value :=
  match items with
  | [] => []
  | x :: rest =>
      if keep x i then x :: filter_from keep (i + 1) rest
      else filter_from keep (i + 1) rest
  end.

Definition arr_filter (keep : Value -> Z -> bool) (items : list Value) : list Value :=
  filter_from keep 0 items.

(** [indices.includes(i)]. *)
Definition includes (indices : list Z) (i : Z) : bool :=
  existsb (Z.eqb i) indices.

(** Array operations on values; the receiver is an array wherever the
    source calls them. *)
Definition arr_items (v : Value) : list Value :=
  match v with
  | VArr _ _ items => items
  | _ => []
  end.

Definition array_assign (arr : Value) (i : Z) (v : Value) : Value :=
  match arr with
  | VArr r t items => VArr r t (arr_set items i v)
  | _ => arr
  end.

Definition array_splice (arr : Value) (start count : Z) (ins : list Value) : Value :=
  match arr with
  | VArr r t items => VArr r t (splice items start count ins)
  | _ => arr
  end.

(* ===================================================================== *)
(** ** The helpers imported by use-form.ts *)
(* ===================================================================== *)

(** Modelled from the spec: [formList] of [./form-list/form-list], which
    is not among the sources.  The spec's data model makes a ListValue a
    value "explicitly tagged as a list of item-records"; [formList] puts
    the tag on the array it is given. *)
Definition formList (v : Value) : Value :=
  match v with
  | VArr r _ items => VArr r true items
  | _ => v
  end.

(** Modelled from the spec: [isFormList] of [./form-list/form-list], the
    probe for the tag: an array that carries it. *)
Definition isFormList (v : Value) : bool :=
  match v with
  | VArr _ t _ => t
  | _ => false
  end.

(** What the external event and the submit callback are asked to do. *)
Record Event : Type := mkEvent { event_id : nat }.

Inductive Call : Type :=
  | PreventDefault (ev : Event)
  | HandleSubmit (vals : JsObject) (ev : Event).

(* ===================================================================== *)
(** ** React state cells and the monad of handlers *)
(* ===================================================================== *)

(** The two [useState] cells, the allocator of references and the calls
    made to the outside so far. *)
Record Store : Type := mkStore {
  st_values : JsObject;
  st_errors : JsObject;
  st_next : Ref;
  st_calls : list Call
}.

(** A handler returns or raises, and leaves a store behind either way:
    what was queued before an exception stays queued. *)
Definition M (A : Type) : Type := Store -> Outcome A * Store.

Definition ret {A} (a : A) : M A := fun s => (Ok a, s).

Definition bind {A B} (m : M A) (k : A -> M B) : M B :=
  fun s =>
    match m s with
    | (Ok a, s') => k a s'
    | (Throw e, s') => (Throw e, s')
    end.

Definition lift {A} (o : Outcome A) : M A := fun s => (o, s).

Definition obind {A B} (o : Outcome A) (k : A -> Outcome B) : Outcome B :=
  match o with
  | Ok a => k a
  | Throw e => Throw e
  end.

Declare Scope handler_scope.
Delimit Scope handler_scope with handler.
Notation "x <- m ;; k" := (bind m (fun x => k))
  (at level 100, m at next level, right associativity) : handler_scope.
Notation "m ;; k" := (bind m (fun _ => k))
  (at level 100, right associativity) : handler_scope.
Notation "x <-? o ;; k" := (obind o (fun x => k))
  (at level 100, o at next level, right associativity) : handler_scope.
Open Scope handler_scope.

(** A new reference. *)
Definition alloc : M Ref :=
  fun s => (Ok (st_next s), mkStore (st_values s) (st_errors s) (S (st_next s)) (st_calls s)).

Definition call_out (c : Call) : M unit :=
  fun s => (Ok tt, mkStore (st_values s) (st_errors s) (st_next s) (st_calls s ++ [c])).

(** [React.SetStateAction]: a replacement or an updater of the current
    content of the cell. *)
Inductive SetStateAction : Type :=
  | Replace (o : JsObject)
  | Update (f : JsObject -> M JsObject).

Definition put_values (o : JsObject) : M unit :=
  fun s => (Ok tt, mkStore o (st_errors s) (st_next s) (st_calls s)).

Definition put_errors (o : JsObject) : M unit :=
  fun s => (Ok tt, mkStore (st_values s) o (st_next s) (st_calls s)).

(** The setters that [useState] hands out.  Updaters run against the
    content of the cell, in the order they were queued. *)
Definition setValues (a : SetStateAction) : M unit :=
  match a with
  | Replace o => put_values o
  | Update f => fun s => (o <- f (st_values s) ;; put_values o) s
  end.

Definition setErrors (a : SetStateAction) : M unit :=
  match a with
  | Replace o => put_errors o
  | Update f => fun s => (o <- f (st_errors s) ;; put_errors o) s
  end.

(** [{ ...o, [k]: v }] *)
Definition spread_with (o : JsObject) (k : string) (v : Value) : M JsObject :=
  r <- alloc ;; ret (mkObj r (props_set (obj_props o) k v)).

(** [{ ...v, [k]: x }] for any value [v] *)
Definition spread_value_with (v : Value) (k : string) (x : Value) : M Value :=
  r <- alloc ;; ret (VObj r (props_set (own_props v) k x)).

(** [{ ...o }] *)
Definition spread (o : JsObject) : M JsObject :=
  r <- alloc ;; ret (mkObj r (obj_props o)).

(** [{}] *)
Definition empty_object : M JsObject :=
  r <- alloc ;; ret (mkObj r []).

(** [[...list]]: the copy is a plain array, the tag is not an element. *)
Definition spread_array (v : Value) : M Value :=
  r <- alloc ;; ret (VArr r false (arr_items v)).

(** [[...list, x]] *)
Definition spread_array_with (v : Value) (x : Value) : M Value :=
  r <- alloc ;; ret (VArr r false (arr_items v ++ [x])).

(** [list.filter(keep)] *)
Definition array_filter (v : Value) (keep : Value -> Z -> bool) : M Value :=
  r <- alloc ;; ret (VArr r false (arr_filter keep (arr_items v))).

(** Modelled from the spec: [filterErrors] of [./filter-errors/filter-errors],
    which is not among the sources.  Section 4.2: inputs "are filtered so
    that falsy error values never occupy a key"; no [initialErrors] gives
    the empty store. *)
Definition filterErrors (errs : option JsObject) : M JsObject :=
  match errs with
  | None => empty_object
  | Some o =>
      r <- alloc ;;
      ret (mkObj r (List.filter (fun kv => truthy (snd kv)) (obj_props o)))
  end.

(** Modelled from the spec: [getInputOnChange] of
    [./get-input-on-change/get-input-on-change], which is not among the
    sources.  Section 4.5: "if the argument exposes a target with a type
    matching checkbox, read target.checked; else if it exposes
    target.value, read that; else treat the argument itself as the raw
    value". *)
Definition getInputOnChange (setValue : Value -> M unit) (arg : Value) : M unit :=
  let target := opt_field arg "target" in
  match opt_field target "type" with
  | VStr "checkbox" => setValue (opt_field target "checked")
  | _ =>
      if props_has (own_props target) "value"
      then setValue (opt_field target "value")
      else setValue arg
  end.

(* ===================================================================== *)
(** ** useForm *)
(* ===================================================================== *)

Record FormValidationResult : Type := mkValidation {
  vr_errors : JsObject;
  hasErrors : bool
}.

Record FormFieldValidationResult : Type := mkFieldValidation {
  valid : bool;
  error : Value
}.

(** [number[] | number] *)
Inductive Indices : Type :=
  | OneIndex (i : Z)
  | ManyIndices (li : list Z).

Inductive ControlType : Type :=
  | Checkbox
  | Input.

(** [{ type, withError = true }] *)
Record Options : Type := mkOptions {
  opt_type : option ControlType;
  opt_withError : option bool
}.

Definition default_options : Options := mkOptions None None.

Definition withError (o : Options) : bool :=
  match opt_withError o with
  | Some b => b
  | None => true
  end.

Definition is_checkbox (o : Options) : bool :=
  match opt_type o with
  | Some Checkbox => true
  | _ => false
  end.

(** The binding descriptor: [{ checked, onChange }] or [{ value, onChange }],
    with [error] when there is one. *)
Record InputProps : Type := mkInputProps {
  ip_checked : option Value;
  ip_value : option Value;
  ip_onChange : Value -> M unit;
  ip_error : option Value
}.

(** The first render: [useState(filterErrors(initialErrors))] and
    [useState(initialValues)], with [next] the first free reference.
    [filterErrors] runs before the cells exist; all it takes from the
    store is a reference for the object it returns. *)
Definition mount (initialValues : JsObject) (initialErrors : option JsObject)
    (next : Ref) : Store :=
  let blank := mkStore initialValues (mkObj next []) next [] in
  match filterErrors initialErrors blank with
  | (Ok errs, s) => mkStore initialValues errs (st_next s) []
  | (Throw _, s) => s
  end.

Section UseForm.

(** The rule set and the two validators of [./validate-values], which
    are not among the sources: pure functions of the rules and the
    values. *)
Variable Rules : Type.
Variable validateValues : Rules -> JsObject -> FormValidationResult.
Variable validateFieldValue : string -> Rules -> JsObject -> FormFieldValidationResult.

Variable initialValues : JsObject.
Variable rules : Rules.

(** What the closures of this render see. *)
Variable values : JsObject.
Variable errors : JsObject.

Definition clearErrors : M unit :=
  o <- empty_object ;; setErrors (Replace o).

Definition setFieldError (field : string) (err : Value) : M unit :=
  setErrors (Update (fun current => spread_with current field err)).

Definition clearFieldError (field : string) : M unit :=
  setErrors (Update (fun current =>
    clone <- spread current ;;
    ret (mkObj (obj_ref clone) (props_delete (obj_props clone) field)))).

Definition setFieldValue (field : string) (value : Value) : M unit :=
  setValues (Update (fun currentValues => spread_with currentValues field value)) ;;
  clearFieldError field.

Definition setListItem (field : string) (index : Z) (value : Value) : M unit :=
  let list := obj_get values field in
  if isFormList list then
    item <- lift (get_index list index) ;;
    if is_defined item then
      cloned <- spread_array list ;;
      let cloned := array_assign cloned index value in
      setFieldValue field (formList cloned)
    else ret tt
  else ret tt.

Definition removeListItem (field : string) (indices : Indices) : M unit :=
  let list := obj_get values field in
  if isFormList list then
    filtered <- array_filter list (fun _ index =>
      match indices with
      | ManyIndices li => negb (includes li index)
      | OneIndex i => negb (i =? index)
      end) ;;
    setFieldValue field (formList filtered)
  else ret tt.

Definition addListItem (field : string) (payload : Value) : M unit :=
  let list := obj_get values field in
  if isFormList list then
    appended <- spread_array_with list payload ;;
    setFieldValue field (formList appended)
  else ret tt.

(** The payload [{ from, to }] is taken apart in the parameter list. *)
Definition reorderListItem (field : string) (from to : Z) : M unit :=
  let list := obj_get values field in
  if isFormList list then
    a <- lift (get_index list from) ;;
    if is_defined a then
      b <- lift (get_index list to) ;;
      if is_defined b then
        cloned <- spread_array list ;;
        item <- lift (get_index list from) ;;
        let cloned := array_splice cloned from 1 [] in
        let cloned := array_splice cloned to 0 [item] in
        setFieldValue field (formList cloned)
      else ret tt
    else ret tt
  else ret tt.

Definition validate : M FormValidationResult :=
  let results := validateValues rules values in
  setErrors (Replace (vr_errors results)) ;;
  ret results.

Definition validateField (field : string) : M FormFieldValidationResult :=
  let results := validateFieldValue field rules values in
  (if valid results then clearFieldError field
   else setFieldError field (error results)) ;;
  ret results.

(** The handler takes the event it is called with, if any. *)
Definition onSubmit (handleSubmit : JsObject -> Event -> M unit)
    (event : option Event) : M unit :=
  match event with
  | None => lift (Throw TypeError)
  | Some ev =>
      call_out (PreventDefault ev) ;;
      results <- validate ;;
      if negb (hasErrors results) then handleSubmit values ev else ret tt
  end.


Definition getInputProps (field : string) (options : Options) : InputProps :=
  let value := obj_get values field in
  let onChange := getInputOnChange (fun val => setFieldValue field val) in
  let err :=
    if withError options && truthy (obj_get errors field)
    then Some (obj_get errors field) else None in
  if is_checkbox options
  then mkInputProps (Some value) None onChange err
  else mkInputProps None (Some value) onChange err.

Definition getListInputProps (field : string) (index : Z) (listField : string)
    (options : Options) : Outcome (option InputProps) :=
  let list := obj_get values field in
  if isFormList list then
    listValue <-? get_index list index ;;
    value <-? get_field listValue listField ;;
    let onChange := getInputOnChange (fun val =>
      item <- spread_value_with value listField val ;;
      setListItem field index item) in
    let found := opt_field (opt_index (obj_get errors field) index) listField in
    let err := if withError options && truthy found then Some found else None in
    Ok (Some (if is_checkbox options
              then mkInputProps (Some value) None onChange err
              else mkInputProps None (Some value) onChange err))
  else Ok None.

End UseForm.

Arguments validate {Rules} validateValues rules values.
Arguments validateField {Rules} validateFieldValue rules values field.
Arguments onSubmit {Rules} validateValues rules values handleSubmit event.

(** The callback a test passes to [onSubmit] to see whether it is called. *)
Definition record_submit (vals : JsObject) (ev : Event) : M unit :=
  call_out (HandleSubmit vals ev).

Definition is_submit (c : Call) : bool :=
  match c with
  | HandleSubmit _ _ => true
  | PreventDefault _ => false
  end.

Definition submit_count (s : Store) : nat :=
  length (List.filter is_submit (st_calls s)).

(** A handler of the render that shows the current content of the cells. *)
Definition perform {A} (op : JsObject -> M A) (s : Store) : Outcome A * Store :=
  op (st_values s) s.

(** The store a handler leaves behind. *)
Definition exec {A} (m : M A) (s : Store) : Store := snd (m s).

(** The allocator is ahead of a value: every reference in it is below [n]. *)
Fixpoint refs_below (n : Ref) (v : Value) : bool :=
  match v with
  | VArr r _ items => (r <? n)%nat && forallb (refs_below n) items
  | VObj r ps =>
      (r <? n)%nat && forallb (fun kv => match kv with (_, x) => refs_below n x end) ps
  | _ => true
  end.

(** A store in which no reference is at or above the allocator: the next
    object allocated is none of those in the cells. *)
Definition store_wf (s : Store) : Prop :=
  refs_below (st_next s) (to_value (st_values s)) = true /\
  refs_below (st_next s) (to_value (st_errors s)) = true.

(** The ErrorStore invariant: a key that is there holds a truthy error. *)
Definition ErrorStore_ok (o : JsObject) : Prop :=
  forall k, obj_has o k = true -> truthy (obj_get o k) = true.

(** The removal set of [removeListItem], in the words of the spec. *)
Definition in_removal (indices : Indices) (i : Z) : Prop :=
  match indices with
  | OneIndex j => j = i
  | ManyIndices li => i ∈ li
  end.

#[global] Instance in_removal_dec indices i : Decision (in_removal indices i).
Proof. destruct indices; simpl; apply _. Defined.

(** An index that references an item of a list of [n] items. *)
Definition in_range (n : nat) (i : Z) : Prop := 0 <= i < Z.of_nat n.

(** Reinsertion of [x] at position [to] of a sequence. *)
Definition reinsert (to : nat) (x : Value) (l : list Value) : list Value :=
  take to l ++ x :: drop to l.

(** The public operations on the error store, as data. *)
Inductive ErrorOp : Type :=
  | OpSetFieldError (field : string) (err : Value)
  | OpClearFieldError (field : string)
  | OpClearErrors
  | OpSetErrors (o : JsObject).

Definition run_error_op (op : ErrorOp) : M unit :=
  match op with
  | OpSetFieldError field err => setFieldError field err
  | OpClearFieldError field => clearFieldError field
  | OpClearErrors => clearErrors
  | OpSetErrors o => setErrors (Replace o)
  end.

(** The calls that hand the store nothing falsy. *)
Definition falsy_free (op : ErrorOp) : Prop :=
  match op with
  | OpSetFieldError _ err => truthy err = true
  | OpSetErrors o => ErrorStore_ok o
  | OpClearFieldError _ | OpClearErrors => True
  end.

(** The stores a form can be in after construction and any number of
    error operations that hand it nothing falsy. *)
Inductive reachable (initialValues : JsObject) (initialErrors : option JsObject)
    (next : Ref) : Store -> Prop :=
  | reach_mount : reachable initialValues initialErrors next
      (mount initialValues initialErrors next)
  | reach_step s op :
      reachable initialValues initialErrors next s ->
      falsy_free op ->
      reachable initialValues initialErrors next (exec (run_error_op op) s).

(* --------------------------------------------------------------------- *)
(** *** Concrete forms used in examples *)

Definition person_x : Value := VObj 1%nat [("name", VStr "x"); ("age", VNum 3)].

Definition people_store : Store :=
  mkStore (mkObj 0%nat [("people", VArr 2%nat true [person_x]); ("n", VNum 1)])
          (mkObj 3%nat [("n", VStr "required")]) 4%nat [].

Definition abcd_store : Store :=
  mkStore (mkObj 0%nat
             [("abcd", VArr 1%nat true [VStr "A"; VStr "B"; VStr "C"; VStr "D"])])
          (mkObj 2%nat [("abcd", VStr "too short")]) 3%nat [].

Definition empty_store : Store :=
  mkStore (mkObj 0%nat []) (mkObj 1%nat []) 2%nat [].

(** A form constructed with [initialErrors: { age: "", n: "bad" }]. *)
Definition age_errors : JsObject := mkObj 1%nat [("age", VStr ""); ("n", VStr "bad")].

Definition mounted_store : Store := mount (mkObj 0%nat []) (Some age_errors) 2%nat.

(** A form whose field [tags] holds a plain array, without the list tag. *)
Definition plain_store : Store :=
  mkStore (mkObj 0%nat [("tags", VArr 1%nat false [VStr "a"; VStr "b"])])
          (mkObj 2%nat [("tags", VStr "pick one")]) 3%nat [].

(** The four list operations, as data. *)
Inductive ListOp : Type :=
  | OpSetListItem (index : Z) (value : Value)
  | OpAddListItem (payload : Value)
  | OpRemoveListItem (indices : Indices)
  | OpReorderListItem (from to : Z).

Definition run_list_op (values : JsObject) (field : string) (op : ListOp) : M unit :=
  match op with
  | OpSetListItem index value => setListItem values field index value
  | OpAddListItem payload => addListItem values field payload
  | OpRemoveListItem indices => removeListItem values field indices
  | OpReorderListItem from to => reorderListItem values field from to
  end.

(** The next render: the store after a handler of this render has run. *)
Definition rerender {A} (op : JsObject -> M A) (s : Store) : Store := snd (perform op s).

(* ===================================================================== *)
(** ** Property lists *)
(* ===================================================================== *)

Lemma props_get_set_eq ps k v : props_get (props_set ps k v) k = v.
Proof.
  induction ps as [|[k' v'] ps IH]; simpl.
  - by rewrite String.eqb_refl.
  - destruct (String.eqb k k') eqn:E; simpl; rewrite E; done.
Qed.

Lemma props_get_set_ne ps k k' v :
  k' ≠ k -> props_get (props_set ps k v) k' = props_get ps k'.
Proof.
  intros Hne. induction ps as [|[k0 v0] ps IH]; simpl.
  - apply String.eqb_neq in Hne. by rewrite Hne.
  - destruct (String.eqb k k0) eqn:E; simpl.
    + apply String.eqb_eq in E. subst k0.
      apply String.eqb_neq in Hne. by rewrite Hne.
    + by rewrite IH.
Qed.

Lemma props_has_delete ps k : props_has (props_delete ps k) k = false.
Proof.
  induction ps as [|[k' v'] ps IH]; simpl; [done|].
  destruct (String.eqb k k') eqn:E; simpl; [done|]. by rewrite E.
Qed.

Lemma props_get_delete_ne ps k k' :
  k' ≠ k -> props_get (props_delete ps k) k' = props_get ps k'.
Proof.
  intros Hne. induction ps as [|[k0 v0] ps IH]; simpl; [done|].
  destruct (String.eqb k k0) eqn:E; simpl.
  - apply String.eqb_eq in E. subst k0.
    apply String.eqb_neq in Hne. by rewrite Hne.
  - by rewrite IH.
Qed.

Lemma props_has_delete_ne ps k k' :
  k' ≠ k -> props_has (props_delete ps k) k' = props_has ps k'.
Proof.
  intros Hne. induction ps as [|[k0 v0] ps IH]; simpl; [done|].
  destruct (String.eqb k k0) eqn:E; simpl.
  - apply String.eqb_eq in E. subst k0.
    apply String.eqb_neq in Hne. by rewrite Hne.
  - by rewrite IH.
Qed.

Lemma props_has_set ps k v k' :
  props_has (props_set ps k v) k' = String.eqb k' k || props_has ps k'.
Proof.
  induction ps as [|[k0 v0] ps IH]; simpl.
  - by destruct (String.eqb k' k).
  - destruct (String.eqb k k0) eqn:E; simpl.
    + apply String.eqb_eq in E. subst k0.
      by destruct (String.eqb k' k).
    + rewrite IH. destruct (String.eqb k' k0), (String.eqb k' k); done.
Qed.

(** A value found in a property list is below the allocator when the
    list is. *)
Lemma refs_below_props_get n ps k :
  forallb (fun kv => match kv with (_, x) => refs_below n x end) ps = true ->
  refs_below n (props_get ps k) = true.
Proof.
  induction ps as [|[k' v'] ps IH]; simpl; [done|].
  intros [Hv Hps]%andb_true_iff.
  destruct (String.eqb k k'); auto.
Qed.

Lemma store_wf_values_ref s : store_wf s -> (obj_ref (st_values s) < st_next s)%nat.
Proof.
  intros [Hv _]. simpl in Hv. apply andb_true_iff in Hv as [Hr _].
  by apply Nat.ltb_lt in Hr.
Qed.

Lemma store_wf_field_ref s field r t items :
  store_wf s -> obj_get (st_values s) field = VArr r t items -> (r < st_next s)%nat.
Proof.
  intros [Hv _] Hget. simpl in Hv. apply andb_true_iff in Hv as [_ Hps].
  pose proof (refs_below_props_get _ _ field Hps) as Hb.
  unfold obj_get in Hget. rewrite Hget in Hb. simpl in Hb.
  apply andb_true_iff in Hb as [Hr _]. by apply Nat.ltb_lt in Hr.
Qed.

(* ===================================================================== *)
(** ** The value store *)
(* ===================================================================== *)

(** What [setFieldValue] leaves in the cells: a new values object with
    the field set, a new errors object without the field's key. *)
Lemma setFieldValue_run field value s :
  setFieldValue field value s =
    (Ok tt,
     mkStore (mkObj (st_next s) (props_set (obj_props (st_values s)) field value))
             (mkObj (S (st_next s)) (props_delete (obj_props (st_errors s)) field))
             (S (S (st_next s))) (st_calls s)).
Proof. reflexivity. Qed.

(** C7. [setFieldValue (field, value)] returns, and leaves a new
    ValueStore object in which [value] is stored at [field] and every
    other field holds the very value (same reference) it held before;
    the ErrorStore no longer has a key for [field], and its other keys
    are as they were. *)
Theorem setFieldValue_spec (s : Store) (field : string) (value : Value) :
  store_wf s ->
  exists s',
    setFieldValue field value s = (Ok tt, s') /\
    obj_get (st_values s') field = value /\
    (forall other, other ≠ field ->
       obj_get (st_values s') other = obj_get (st_values s) other) /\
    obj_ref (st_values s') ≠ obj_ref (st_values s) /\
    obj_has (st_errors s') field = false /\
    (forall other, other ≠ field ->
       obj_has (st_errors s') other = obj_has (st_errors s) other /\
       obj_get (st_errors s') other = obj_get (st_errors s) other).
Proof.
  intros Hwf. eexists. split; [apply setFieldValue_run|]. simpl.
  unfold obj_get, obj_has; simpl.
  split; [apply props_get_set_eq|].
  split; [intros other Hne; by apply props_get_set_ne|].
  split; [apply store_wf_values_ref in Hwf; lia|].
  split; [apply props_has_delete|].
  intros other Hne. split.
  - by apply props_has_delete_ne.
  - by apply props_get_delete_ne.
Qed.

Lemma setFieldValue_spec_witness :
  exists s',
    setFieldValue "n" (VNum 2) people_store = (Ok tt, s') /\
    obj_get (st_values s') "n" = VNum 2 /\
    obj_get (st_values s') "people" = VArr 2%nat true [person_x] /\
    obj_has (st_errors s') "n" = false.
Proof.
  destruct (setFieldValue_spec people_store "n" (VNum 2)) as (s' & Hrun & Hset & Hfr & _ & Herr & _).
  - split; reflexivity.
  - exists s'. split; [exact Hrun|]. split; [exact Hset|]. split; [|exact Herr].
    rewrite Hfr; [reflexivity | discriminate].
Defined.

(* ===================================================================== *)
(** ** Arrays: filter and splice *)
(* ===================================================================== *)

Lemma arr_get_cons_succ x rest i :
  1 <= i -> arr_get (x :: rest) i = arr_get rest (i - 1).
Proof.
  intros Hi. unfold arr_get.
  destruct (Z.ltb_spec i 0); [lia|]. destruct (Z.ltb_spec (i - 1) 0); [lia|].
  replace (Z.to_nat i) with (S (Z.to_nat (i - 1))) by lia. done.
Qed.

Lemma arr_get_lookup items i :
  in_range (length items) i -> items !! Z.to_nat i = Some (arr_get items i).
Proof.
  intros [H0 Hlt]. unfold arr_get. destruct (Z.ltb_spec i 0); [lia|].
  destruct (nth_lookup_or_length items (Z.to_nat i) VUndefined); [done|lia].
Qed.

Lemma arr_get_out_of_range items i :
  ~ in_range (length items) i -> arr_get items i = VUndefined.
Proof.
  intros Hout. unfold arr_get, in_range in *.
  destruct (Z.ltb_spec i 0); [done|].
  apply nth_overflow. lia.
Qed.

Lemma arr_get_defined_in_range items i :
  arr_get items i ≠ VUndefined -> in_range (length items) i.
Proof.
  intros Hdef. destruct (decide (0 <= i < Z.of_nat (length items))) as [|Hout]; [done|].
  by apply arr_get_out_of_range in Hout.
Qed.

(** [filter] visits the indices in increasing order and keeps the items
    whose index passes the test. *)
Lemma filter_from_seqZ (keep : Z -> bool) (P : Z -> Prop) `{!forall i, Decision (P i)} :
  (forall i, keep i = true <-> P i) ->
  forall items k,
    filter_from (fun _ i => keep i) k items =
    (fun i => arr_get items (i - k)) <$> filter P (seqZ k (Z.of_nat (length items))).
Proof.
  intros Hkeep. induction items as [|x rest IH]; intros k; [done|].
  cbn [filter_from length].
  rewrite seqZ_cons by lia.
  replace (Z.pred (Z.of_nat (S (length rest)))) with (Z.of_nat (length rest)) by lia.
  rewrite filter_cons, (IH (k + 1)).
  assert (Htail : (fun i => arr_get rest (i - (k + 1))) <$>
                    filter P (seqZ (Z.succ k) (Z.of_nat (length rest))) =
                  (fun i => arr_get (x :: rest) (i - k)) <$>
                    filter P (seqZ (Z.succ k) (Z.of_nat (length rest)))).
  { apply Forall_fmap_ext_1, Forall_forall. intros i [_ Hi%elem_of_seqZ]%list_elem_of_filter.
    rewrite arr_get_cons_succ by lia. f_equal. lia. }
  replace (k + 1) with (Z.succ k) in * by lia.
  destruct (keep k) eqn:Ek.
  - rewrite decide_True by by apply Hkeep.
    rewrite fmap_cons, Z.sub_diag. cbn [arr_get Z.ltb Z.compare Z.to_nat nth].
    by rewrite Htail.
  - rewrite decide_False; [done|]. intros HP%Hkeep. congruence.
Qed.

(** Nothing is dropped when every index of the array passes the test. *)
Lemma filter_from_all (keep : Z -> bool) items k :
  (forall i, k <= i < k + Z.of_nat (length items) -> keep i = true) ->
  filter_from (fun _ i => keep i) k items = items.
Proof.
  revert k. induction items as [|x rest IH]; intros k Hall; [done|].
  cbn [filter_from]. rewrite Hall by (cbn [length]; lia).
  f_equal. apply IH. intros i Hi. apply Hall. cbn [length]. lia.
Qed.

(** One item goes when the single index is in the array. *)
Lemma filter_from_one j items k :
  k <= j < k + Z.of_nat (length items) ->
  length (filter_from (fun _ i => negb (j =? i)) k items) = (length items - 1)%nat.
Proof.
  revert k. induction items as [|x rest IH]; intros k Hj; [cbn [length] in Hj; lia|].
  cbn [filter_from length]. destruct (Z.eqb_spec j k) as [->|Hne]; cbn [negb].
  - rewrite (filter_from_all (fun i => negb (k =? i))); [lia|].
    intros i Hi. destruct (Z.eqb_spec k i); [lia|done].
  - cbn [length]. rewrite IH by (cbn [length] in Hj; lia).
    cbn [length] in Hj. lia.
Qed.

(** Dropping the index just appended gives the array back. *)
Lemma filter_from_appended items payload k :
  filter_from (fun _ i => negb (k + Z.of_nat (length items) =? i)) k (items ++ [payload])
  = items.
Proof.
  revert k. induction items as [|x rest IH]; intros k.
  - cbn. rewrite Z.add_0_r, Z.eqb_refl. done.
  - cbn [app filter_from length].
    destruct (Z.eqb_spec (k + Z.of_nat (S (length rest))) k); [lia|]. cbn [negb].
    f_equal. rewrite <- (IH (k + 1)) at 2.
    replace (k + 1 + Z.of_nat (length rest)) with (k + Z.of_nat (S (length rest))) by lia.
    done.
Qed.

(** The test of [removeListItem] says "not in the removal set". *)
Lemma keep_iff_not_removed indices i :
  match indices with
  | ManyIndices li => negb (includes li i)
  | OneIndex j => negb (j =? i)
  end = true <-> ~ in_removal indices i.
Proof.
  destruct indices as [j|li]; simpl.
  - destruct (Z.eqb_spec j i); simpl; split; intros; try done; congruence.
  - unfold includes. rewrite negb_true_iff, <- not_true_iff_false, existsb_exists.
    split.
    + intros Hno Hin. apply Hno. exists i. split; [by apply list_elem_of_In|apply Z.eqb_refl].
    + intros Hno (x & Hin & ->%Z.eqb_eq). by apply Hno, list_elem_of_In.
Qed.

Lemma filter_from_ext (keep1 keep2 : Value -> Z -> bool) items k :
  (forall x i, keep1 x i = keep2 x i) ->
  filter_from keep1 k items = filter_from keep2 k items.
Proof.
  intros Hext. revert k. induction items as [|x rest IH]; intros k; [done|].
  cbn [filter_from]. by rewrite Hext, IH.
Qed.

Lemma splice_remove_one items i :
  in_range (length items) i ->
  splice items i 1 [] = delete (Z.to_nat i) items.
Proof.
  intros [H0 Hlt]. unfold splice. cbn [app].
  destruct (Z.ltb_spec i 0); [lia|].
  rewrite delete_take_drop. f_equal; f_equal; lia.
Qed.

Lemma splice_insert_one items i x :
  0 <= i <= Z.of_nat (length items) ->
  splice items i 0 [x] = reinsert (Z.to_nat i) x items.
Proof.
  intros [H0 Hle]. unfold splice, reinsert. cbn [app].
  destruct (Z.ltb_spec i 0); [lia|].
  f_equal; [f_equal; lia|]. f_equal. f_equal. lia.
Qed.

Lemma length_reinsert n x l : length (reinsert n x l) = S (length l).
Proof.
  unfold reinsert. rewrite length_app. cbn [length].
  rewrite length_take, length_drop. lia.
Qed.

Lemma reinsert_lookup n x l : (n <= length l)%nat -> reinsert n x l !! n = Some x.
Proof.
  intros Hn. unfold reinsert.
  rewrite lookup_app_r by (rewrite length_take; lia).
  rewrite length_take. replace (n - n `min` length l)%nat with 0%nat by lia. done.
Qed.

Lemma delete_reinsert n x l : (n <= length l)%nat -> delete n (reinsert n x l) = l.
Proof.
  intros Hn. unfold reinsert. rewrite delete_take_drop.
  rewrite take_app_le by (rewrite length_take; lia).
  rewrite take_take, Nat.min_id.
  rewrite drop_app_ge by (rewrite length_take; lia).
  rewrite length_take.
  replace (S n - n `min` length l)%nat with 1%nat by lia.
  cbn [drop]. rewrite drop_0. apply take_drop.
Qed.

(* ===================================================================== *)
(** ** The list-field operations *)
(* ===================================================================== *)

(** [removeListItem] on a list-tagged field always goes through
    [setFieldValue], with the filtered array it has just allocated. *)
Lemma removeListItem_run s field indices r items :
  obj_get (st_values s) field = VArr r true items ->
  perform (fun values => removeListItem values field indices) s =
  setFieldValue field
    (VArr (st_next s) true
       (arr_filter (fun _ index =>
          match indices with
          | ManyIndices li => negb (includes li index)
          | OneIndex i => negb (i =? index)
          end) items))
    (exec alloc s).
Proof. intros Hlist. unfold perform, removeListItem. rewrite Hlist. reflexivity. Qed.

Lemma addListItem_run s field payload r items :
  obj_get (st_values s) field = VArr r true items ->
  perform (fun values => addListItem values field payload) s =
  setFieldValue field (VArr (st_next s) true (items ++ [payload])) (exec alloc s).
Proof. intros Hlist. unfold perform, addListItem. rewrite Hlist. reflexivity. Qed.

Lemma reorderListItem_run s field from to r items :
  obj_get (st_values s) field = VArr r true items ->
  arr_get items from ≠ VUndefined ->
  arr_get items to ≠ VUndefined ->
  perform (fun values => reorderListItem values field from to) s =
  setFieldValue field
    (VArr (st_next s) true
       (splice (splice items from 1 []) to 0 [arr_get items from]))
    (exec alloc s).
Proof.
  intros Hlist Hfrom Hto. unfold perform, reorderListItem. rewrite Hlist.
  cbn [isFormList get_index]. unfold bind at 1, lift at 1.
  destruct (arr_get items from) eqn:Ef; try done;
    cbn [is_defined]; unfold bind at 1, lift at 1;
    destruct (arr_get items to) eqn:Et; try done; cbn [is_defined];
    unfold bind, lift, spread_array, alloc, ret, exec; cbn; rewrite ?Ef; reflexivity.
Qed.

Lemma reorderListItem_noop s field from to r items :
  obj_get (st_values s) field = VArr r true items ->
  arr_get items from = VUndefined \/ arr_get items to = VUndefined ->
  perform (fun values => reorderListItem values field from to) s = (Ok tt, s).
Proof.
  intros Hlist Hundef. unfold perform, reorderListItem. rewrite Hlist.
  cbn [isFormList get_index]. unfold bind at 1, lift at 1.
  destruct (arr_get items from) eqn:Ef; cbn [is_defined]; try reflexivity;
    unfold bind at 1, lift at 1;
    destruct (arr_get items to) eqn:Et; cbn [is_defined]; try reflexivity;
    destruct Hundef; discriminate.
Qed.

Lemma setFieldValue_field_lookup field value s :
  obj_get (st_values (exec (setFieldValue field value) s)) field = value.
Proof. unfold exec. rewrite setFieldValue_run. apply props_get_set_eq. Qed.

(** C5. On a list-tagged field, [removeListItem (field, indices)], with
    one index or a set of indices, stores a tagged list that holds
    exactly the items whose original index is not in the removal set, in
    their original order.  With a single index that references an item
    (given bare or as a one-element set) the list is one shorter; when
    no index of the removal set references an item the content and the
    tag are as before. *)
Theorem removeListItem_spec (s : Store) (field : string) (indices : Indices)
    (r : Ref) (items : list Value) :
  obj_get (st_values s) field = VArr r true items ->
  exists s' r' items',
    perform (fun values => removeListItem values field indices) s = (Ok tt, s') /\
    obj_get (st_values s') field = VArr r' true items' /\
    items' = arr_get items <$>
               filter (fun i => ~ in_removal indices i)
                      (seqZ 0 (Z.of_nat (length items))) /\
    (forall i, indices = OneIndex i \/ indices = ManyIndices [i] ->
       in_range (length items) i ->
       length items' = (length items - 1)%nat) /\
    ((forall i, in_removal indices i -> ~ in_range (length items) i) ->
       items' = items).
Proof.
  intros Hlist. rewrite (removeListItem_run _ _ _ _ _ Hlist).
  eexists _, (st_next s), _. split; [apply setFieldValue_run|].
  split; [apply props_get_set_eq|]. unfold arr_filter.
  split; [|split].
  - rewrite (filter_from_seqZ _ (fun i => ~ in_removal indices i));
      [|intros i; apply keep_iff_not_removed].
    apply Forall_fmap_ext_1, Forall_forall. intros i _. f_equal. lia.
  - intros i [-> | ->] Hi.
    + apply filter_from_one. unfold in_range in Hi. lia.
    + rewrite (filter_from_ext _ (fun _ j => negb (i =? j))).
      * apply filter_from_one. unfold in_range in Hi. lia.
      * intros _ j. cbn. rewrite orb_false_r, Z.eqb_sym. done.
  - intros Hout.
    apply (filter_from_all (fun index =>
      match indices with
      | ManyIndices li => negb (includes li index)
      | OneIndex i => negb (i =? index)
      end)).
    intros i Hi. apply keep_iff_not_removed. intros Hin.
    apply (Hout i Hin). unfold in_range. lia.
Qed.

Lemma removeListItem_spec_witness :
  exists s' r',
    perform (fun values => removeListItem values "abcd" (ManyIndices [1; 3])) abcd_store
      = (Ok tt, s') /\
    obj_get (st_values s') "abcd" = VArr r' true [VStr "A"; VStr "C"].
Proof.
  destruct (removeListItem_spec abcd_store "abcd" (ManyIndices [1; 3]) 1%nat
              [VStr "A"; VStr "B"; VStr "C"; VStr "D"])
    as (s' & r' & items' & Hrun & Hget & Hitems & _).
  - reflexivity.
  - exists s', r'. split; [exact Hrun|]. rewrite Hget, Hitems. reflexivity.
Defined.

(** C10. On a list-tagged field [removeListItem] goes through
    [setFieldValue] whatever the indices are.  When none of them
    references an item it therefore still stores a new tagged list
    object with the same items, in a new ValueStore object, and removes
    the field's ErrorStore key: the store it leaves is not the store it
    found. *)
Theorem removeListItem_invalid_not_noop (s : Store) (field : string)
    (indices : Indices) (r : Ref) (items : list Value) :
  store_wf s ->
  obj_get (st_values s) field = VArr r true items ->
  (forall i, in_removal indices i -> ~ in_range (length items) i) ->
  exists s' r',
    perform (fun values => removeListItem values field indices) s
      = setFieldValue field (VArr r' true items) (exec alloc s) /\
    perform (fun values => removeListItem values field indices) s = (Ok tt, s') /\
    obj_get (st_values s') field = VArr r' true items /\
    r' ≠ r /\
    obj_ref (st_values s') ≠ obj_ref (st_values s) /\
    obj_has (st_errors s') field = false /\
    s' ≠ s.
Proof.
  intros Hwf Hlist Hout.
  pose proof (store_wf_field_ref _ _ _ _ _ Hwf Hlist) as Hr.
  pose proof (store_wf_values_ref _ Hwf) as Hv.
  assert (Hrun := removeListItem_run s field indices r items Hlist).
  assert (Hsame : arr_filter (fun _ index =>
            match indices with
            | ManyIndices li => negb (includes li index)
            | OneIndex i => negb (i =? index)
            end) items = items).
  { apply (filter_from_all (fun index =>
      match indices with
      | ManyIndices li => negb (includes li index)
      | OneIndex i => negb (i =? index)
      end)).
    intros i Hi. apply keep_iff_not_removed. intros Hin.
    apply (Hout i Hin). unfold in_range. lia. }
  rewrite Hsame in Hrun.
  eexists _, (st_next s). split; [exact Hrun|].
  rewrite Hrun. split; [apply setFieldValue_run|]. cbn.
  split; [apply props_get_set_eq|].
  split; [lia|]. split; [lia|].
  split; [apply props_has_delete|].
  intros Heq. apply (f_equal st_next) in Heq. cbn in Heq. lia.
Qed.

Lemma removeListItem_invalid_not_noop_witness :
  exists s' r',
    perform (fun values => removeListItem values "abcd" (OneIndex 7)) abcd_store
      = (Ok tt, s') /\
    obj_get (st_values abcd_store) "abcd"
      = VArr 1%nat true [VStr "A"; VStr "B"; VStr "C"; VStr "D"] /\
    obj_get (st_values s') "abcd"
      = VArr r' true [VStr "A"; VStr "B"; VStr "C"; VStr "D"] /\
    r' ≠ 1%nat /\
    obj_has (st_errors abcd_store) "abcd" = true /\
    obj_has (st_errors s') "abcd" = false.
Proof.
  destruct (removeListItem_invalid_not_noop abcd_store "abcd" (OneIndex 7) 1%nat
              [VStr "A"; VStr "B"; VStr "C"; VStr "D"])
    as (s' & r' & _ & Hrun & Hget & Hnew & _ & Herr & _).
  - split; reflexivity.
  - reflexivity.
  - intros i <-. unfold in_range. cbn. lia.
  - exists s', r'. split; [exact Hrun|]. split; [reflexivity|].
    split; [exact Hget|]. split; [exact Hnew|]. split; [reflexivity|exact Herr].
Defined.

(** C6. On a list-tagged field, [addListItem (field, payload)] followed
    by [removeListItem (field, i)] with [i] the index of the appended
    item (the original length) leaves a tagged list with the items of
    the original list; this holds when the form re-rendered between the
    two calls and when both calls come from the same render. *)
Theorem addListItem_then_removeListItem (s : Store) (field : string)
    (payload : Value) (r : Ref) (items : list Value) :
  obj_get (st_values s) field = VArr r true items ->
  let i := Z.of_nat (length items) in
  exists s1 r1,
    perform (fun values => addListItem values field payload) s = (Ok tt, s1) /\
    obj_get (st_values s1) field = VArr r1 true (items ++ [payload]) /\
    (exists s2 r2,
       perform (fun values => removeListItem values field (OneIndex i)) s1 = (Ok tt, s2) /\
       obj_get (st_values s2) field = VArr r2 true items) /\
    (exists s2 r2,
       removeListItem (st_values s) field (OneIndex i) s1 = (Ok tt, s2) /\
       obj_get (st_values s2) field = VArr r2 true items).
Proof.
  intros Hlist i.
  rewrite (addListItem_run _ _ _ _ _ Hlist), setFieldValue_run.
  eexists _, (st_next s). split; [reflexivity|].
  assert (Hadded : obj_get
            (st_values
               (mkStore
                  (mkObj (st_next (exec alloc s))
                     (props_set (obj_props (st_values (exec alloc s))) field
                        (VArr (st_next s) true (items ++ [payload]))))
                  (mkObj (S (st_next (exec alloc s)))
                     (props_delete (obj_props (st_errors (exec alloc s))) field))
                  (S (S (st_next (exec alloc s)))) (st_calls (exec alloc s)))) field
          = VArr (st_next s) true (items ++ [payload])) by apply props_get_set_eq.
  split; [exact Hadded|]. split.
  - rewrite (removeListItem_run _ _ _ _ _ Hadded), setFieldValue_run.
    eexists _, _. split; [reflexivity|]. cbn [st_values].
    unfold obj_get. cbn [obj_props]. rewrite props_get_set_eq. f_equal.
    unfold arr_filter, i. apply (filter_from_appended items payload 0).
  - unfold removeListItem. rewrite Hlist. cbn [isFormList].
    eexists _, _. split; [reflexivity|]. cbn.
    unfold obj_get. cbn [obj_props]. rewrite props_get_set_eq. f_equal.
    unfold arr_filter, i.
    apply (filter_from_all (fun index => negb (Z.of_nat (length items) =? index))).
    intros j Hj. destruct (Z.eqb_spec (Z.of_nat (length items)) j); [lia|done].
Qed.

Lemma addListItem_then_removeListItem_witness :
  exists s1 s2 r2,
    perform (fun values => addListItem values "abcd" (VStr "E")) abcd_store = (Ok tt, s1) /\
    perform (fun values => removeListItem values "abcd" (OneIndex 4)) s1 = (Ok tt, s2) /\
    obj_get (st_values s2) "abcd" = VArr r2 true [VStr "A"; VStr "B"; VStr "C"; VStr "D"].
Proof.
  destruct (addListItem_then_removeListItem abcd_store "abcd" (VStr "E") 1%nat
              [VStr "A"; VStr "B"; VStr "C"; VStr "D"])
    as (s1 & r1 & Hadd & _ & (s2 & r2 & Hrem & Hget) & _).
  - reflexivity.
  - exists s1, s2, r2. split; [exact Hadd|]. split; [exact Hrem|exact Hget].
Defined.

(** C4. On a list-tagged field, when [from] and [to] both reference an
    existing item, [reorderListItem (field, {from, to})] stores the
    tagged list obtained by removing the item at [from] and putting it
    back at position [to] of what is left: the item then sits at [to],
    and taking it out again gives the original list without its item at
    [from]; on [A, B, C, D] with from 0 and to 2 this is [B, C, A, D].
    When either index is out of range the store is left as it was. *)
Theorem reorderListItem_spec (s : Store) (field : string) (r : Ref)
    (items : list Value) (from to : Z) :
  obj_get (st_values s) field = VArr r true items ->
  (arr_get items from ≠ VUndefined -> arr_get items to ≠ VUndefined ->
     exists s' r' moved,
       perform (fun values => reorderListItem values field from to) s = (Ok tt, s') /\
       obj_get (st_values s') field = VArr r' true moved /\
       moved = reinsert (Z.to_nat to) (arr_get items from)
                 (delete (Z.to_nat from) items) /\
       length moved = length items /\
       moved !! Z.to_nat to = items !! Z.to_nat from /\
       delete (Z.to_nat to) moved = delete (Z.to_nat from) items /\
       (forall A B C D, items = [A; B; C; D] -> from = 0 -> to = 2 ->
          moved = [B; C; A; D])) /\
  (~ in_range (length items) from \/ ~ in_range (length items) to ->
     perform (fun values => reorderListItem values field from to) s = (Ok tt, s)).
Proof.
  intros Hlist. split.
  - intros Hfrom Hto.
    pose proof (arr_get_defined_in_range _ _ Hfrom) as Rfrom.
    pose proof (arr_get_defined_in_range _ _ Hto) as Rto.
    rewrite (reorderListItem_run _ _ _ _ _ _ Hlist Hfrom Hto), setFieldValue_run.
    eexists _, (st_next s), _. split; [reflexivity|].
    split; [apply props_get_set_eq|].
    assert (Hlen : length (delete (Z.to_nat from) items) = pred (length items)).
    { rewrite length_delete; [lia|]. rewrite (arr_get_lookup _ _ Rfrom). eauto. }
    assert (Hto' : (Z.to_nat to <= length (delete (Z.to_nat from) items))%nat).
    { unfold in_range in *. lia. }
    assert (Hmoved : splice (splice items from 1 []) to 0 [arr_get items from]
              = reinsert (Z.to_nat to) (arr_get items from)
                  (delete (Z.to_nat from) items)).
    { rewrite (splice_remove_one _ _ Rfrom).
      apply splice_insert_one. unfold in_range in *. lia. }
    rewrite Hmoved. split; [reflexivity|].
    split; [rewrite length_reinsert, Hlen; unfold in_range in *; lia|].
    split; [rewrite reinsert_lookup by done; symmetry; by apply arr_get_lookup|].
    split; [by apply delete_reinsert|].
    intros A B C D -> -> ->. reflexivity.
  - intros Hout. apply (reorderListItem_noop _ _ _ _ _ _ Hlist).
    destruct Hout as [Hout | Hout]; [left | right]; by apply arr_get_out_of_range.
Qed.

Lemma reorderListItem_spec_witness :
  (exists s' r',
     perform (fun values => reorderListItem values "abcd" 0 2) abcd_store = (Ok tt, s') /\
     obj_get (st_values s') "abcd" = VArr r' true [VStr "B"; VStr "C"; VStr "A"; VStr "D"]) /\
  perform (fun values => reorderListItem values "abcd" 0 4) abcd_store = (Ok tt, abcd_store).
Proof.
  split.
  - destruct (reorderListItem_spec abcd_store "abcd" 1%nat
                [VStr "A"; VStr "B"; VStr "C"; VStr "D"] 0 2) as [Hmove _].
    + reflexivity.
    + destruct Hmove as (s' & r' & moved & Hrun & Hget & _ & _ & _ & _ & Habcd).
      * discriminate.
      * discriminate.
      * exists s', r'. split; [exact Hrun|].
        rewrite Hget. f_equal. by apply Habcd.
  - destruct (reorderListItem_spec abcd_store "abcd" 1%nat
                [VStr "A"; VStr "B"; VStr "C"; VStr "D"] 0 4) as [_ Hnoop].
    + reflexivity.
    + apply Hnoop. right. unfold in_range. cbn. lia.
Defined.

(* ===================================================================== *)
(** ** The error store *)
(* ===================================================================== *)

Lemma setFieldError_run field err s :
  setFieldError field err s =
    (Ok tt,
     mkStore (st_values s)
             (mkObj (st_next s) (props_set (obj_props (st_errors s)) field err))
             (S (st_next s)) (st_calls s)).
Proof. reflexivity. Qed.

Lemma clearFieldError_run field s :
  clearFieldError field s =
    (Ok tt,
     mkStore (st_values s)
             (mkObj (st_next s) (props_delete (obj_props (st_errors s)) field))
             (S (st_next s)) (st_calls s)).
Proof. reflexivity. Qed.

Lemma clearErrors_run s :
  clearErrors s =
    (Ok tt, mkStore (st_values s) (mkObj (st_next s) []) (S (st_next s)) (st_calls s)).
Proof. reflexivity. Qed.

Lemma ErrorStore_ok_empty r : ErrorStore_ok (mkObj r []).
Proof. intros k Hk. discriminate. Qed.

Lemma ErrorStore_ok_set r r' ps field err :
  ErrorStore_ok (mkObj r ps) -> truthy err = true ->
  ErrorStore_ok (mkObj r' (props_set ps field err)).
Proof.
  intros Hok Herr k. unfold obj_has, obj_get. cbn [obj_props].
  rewrite props_has_set. destruct (String.eqb_spec k field) as [->|Hne].
  - intros _. by rewrite props_get_set_eq.
  - cbn [orb]. intros Hk. rewrite props_get_set_ne by done. by apply (Hok k).
Qed.

Lemma ErrorStore_ok_delete r r' ps field :
  ErrorStore_ok (mkObj r ps) -> ErrorStore_ok (mkObj r' (props_delete ps field)).
Proof.
  intros Hok k. unfold obj_has, obj_get. cbn [obj_props].
  destruct (String.eqb_spec k field) as [->|Hne].
  - by rewrite props_has_delete.
  - rewrite props_has_delete_ne, props_get_delete_ne by done. apply (Hok k).
Qed.

Lemma ErrorStore_ok_filter r ps :
  ErrorStore_ok (mkObj r (List.filter (fun kv => truthy (snd kv)) ps)).
Proof.
  intros k. unfold obj_has, obj_get. cbn [obj_props].
  induction ps as [|[k' v'] ps IH]; cbn [List.filter snd]; [done|].
  destruct (truthy v') eqn:Ev; [|exact IH].
  cbn [props_has props_get]. destruct (String.eqb k k'); auto.
Qed.

(** Construction filters [initialErrors]. *)
Lemma mount_ok initialValues initialErrors next :
  ErrorStore_ok (st_errors (mount initialValues initialErrors next)).
Proof.
  destruct initialErrors as [o|]; cbn.
  - apply ErrorStore_ok_filter.
  - apply ErrorStore_ok_empty.
Qed.

Lemma falsy_free_step s op :
  ErrorStore_ok (st_errors s) -> falsy_free op ->
  ErrorStore_ok (st_errors (exec (run_error_op op) s)).
Proof.
  intros Hok Hfree. destruct s as [vals [er eps] nxt calls].
  destruct op as [field err|field| |o]; cbn in *.
  - by apply (ErrorStore_ok_set er).
  - by apply (ErrorStore_ok_delete er).
  - apply ErrorStore_ok_empty.
  - exact Hfree.
Qed.

(** C3, the claim as stated fails: [setFieldError] with an empty error
    message, and [setErrors] with a store that holds [null], leave a key
    with a falsy value in an ErrorStore that had none. *)
Lemma setFieldError_stores_falsy :
  ErrorStore_ok (st_errors empty_store) /\
  ~ ErrorStore_ok (st_errors (exec (setFieldError "age" (VStr "")) empty_store)) /\
  ~ ErrorStore_ok
      (st_errors (exec (setErrors (Replace (mkObj 9%nat [("age", VNull)]))) empty_store)).
Proof.
  split; [apply ErrorStore_ok_empty|].
  split; intros Hok; specialize (Hok "age" eq_refl); discriminate.
Qed.

(** C3, amended. Construction from [initialErrors], [clearFieldError] and
    [clearErrors] keep the ErrorStore invariant; [setFieldError] keeps it
    when the error it is given is truthy, and [setErrors] when the store
    it is given holds no falsy value.  So in every store reached from
    construction by such calls, no key holds a falsy error. *)
Theorem ErrorStore_invariant (initialValues : JsObject)
    (initialErrors : option JsObject) (next : Ref) (s : Store) :
  reachable initialValues initialErrors next s ->
  ErrorStore_ok (st_errors s).
Proof.
  induction 1 as [|s op Hreach IH Hfree].
  - apply mount_ok.
  - by apply falsy_free_step.
Qed.

Lemma ErrorStore_invariant_witness :
  obj_has (st_errors mounted_store) "age" = false /\
  obj_get
    (st_errors
       (exec (run_error_op (OpClearFieldError "n"))
          (exec (run_error_op (OpSetFieldError "name" (VStr "required"))) mounted_store)))
    "name" = VStr "required" /\
  ErrorStore_ok
    (st_errors
       (exec (run_error_op (OpClearFieldError "n"))
          (exec (run_error_op (OpSetFieldError "name" (VStr "required"))) mounted_store))).
Proof.
  split; [reflexivity|]. split; [reflexivity|].
  apply (ErrorStore_invariant (mkObj 0%nat []) (Some age_errors) 2%nat).
  apply reach_step; [|exact I].
  apply reach_step; [|reflexivity].
  apply reach_mount.
Defined.

(* ===================================================================== *)
(** ** Submission *)
(* ===================================================================== *)

Section Submission.

Context {Rules : Type}.
Variable validateValues : Rules -> JsObject -> FormValidationResult.
Variable rules : Rules.

Lemma validate_run values s :
  validate validateValues rules values s =
    (Ok (validateValues rules values),
     mkStore (st_values s) (vr_errors (validateValues rules values))
             (st_next s) (st_calls s)).
Proof. reflexivity. Qed.

(** With an event, the handler calls [preventDefault], validates, and
    runs the callback exactly when validation found no error. *)
Lemma onSubmit_run values handleSubmit ev s :
  onSubmit validateValues rules values handleSubmit (Some ev) s =
    let results := validateValues rules values in
    let validated :=
      mkStore (st_values s) (vr_errors results) (st_next s)
              (st_calls s ++ [PreventDefault ev]) in
    if hasErrors results then (Ok tt, validated)
    else handleSubmit values ev validated.
Proof.
  cbn. unfold onSubmit, bind, call_out, validate, setErrors, put_errors, ret. cbn.
  destruct (hasErrors (validateValues rules values)); reflexivity.
Qed.

(** C8. For every values snapshot and rule set, the handler returned by
    [onSubmit (callback)], called with an event, calls the callback
    once, with the snapshot and the event, when [validate ()] on that
    snapshot reports [hasErrors] false, and does not call it when it
    reports [hasErrors] true; either way the ErrorStore holds the
    errors validation found. *)
Theorem onSubmit_calls_back_iff_valid (s : Store) (ev : Event) :
  exists results validated s',
    perform (validate validateValues rules) s = (Ok results, validated) /\
    perform (fun values =>
               onSubmit validateValues rules values record_submit (Some ev)) s
      = (Ok tt, s') /\
    (submit_count s' = S (submit_count s) <-> hasErrors results = false) /\
    (submit_count s' = submit_count s <-> hasErrors results = true) /\
    (hasErrors results = false ->
       st_calls s' = st_calls s ++ [PreventDefault ev; HandleSubmit (st_values s) ev]) /\
    st_errors s' = vr_errors results.
Proof.
  unfold perform. rewrite validate_run, onSubmit_run. cbv zeta.
  destruct (hasErrors (validateValues rules (st_values s))) eqn:Eh;
    eexists _, _, _; (split; [reflexivity|]); rewrite Eh;
    (split; [reflexivity|]); unfold submit_count; cbn [st_calls st_errors];
    rewrite ?List.filter_app, ?length_app; cbn; rewrite <- ?app_assoc;
    repeat split; intros; try done; try lia.
Qed.

(** C9. Called without an event, the handler raises a TypeError at
    [event.preventDefault ()]: nothing has been validated, the store is
    as it was and the callback has not run. *)
Theorem onSubmit_without_event_raises (values : JsObject)
    (handleSubmit : JsObject -> Event -> M unit) (s : Store) :
  onSubmit validateValues rules values handleSubmit None s = (Throw TypeError, s).
Proof. reflexivity. Qed.

End Submission.

(* ===================================================================== *)
(** ** The list-item input binding *)
(* ===================================================================== *)

(** A field that is not list-tagged gets no descriptor. *)
Lemma getListInputProps_not_list values errors field index listField options :
  isFormList (obj_get values field) = false ->
  getListInputProps values errors field index listField options = Ok None.
Proof. intros Hno. unfold getListInputProps. by rewrite Hno. Qed.

(** On a list-tagged field, an index with no item behind it makes the
    read of the subfield raise: there is no test of [list[index]] here,
    unlike in [setListItem] and [reorderListItem]. *)
Lemma getListInputProps_no_item values errors field index listField options r items :
  obj_get values field = VArr r true items ->
  arr_get items index = VUndefined ->
  getListInputProps values errors field index listField options = Throw TypeError.
Proof.
  intros Hlist Hundef. unfold getListInputProps. rewrite Hlist.
  cbn [isFormList get_index obind]. by rewrite Hundef.
Qed.

(** A raw value, as opposed to an event-like object, goes to the setter
    as it is. *)
Lemma getInputOnChange_raw setValue arg :
  opt_field arg "target" = VUndefined ->
  getInputOnChange setValue arg = setValue arg.
Proof. intros Hraw. unfold getInputOnChange. by rewrite Hraw. Qed.

(** The change handler of a list item: the item it hands to
    [setListItem] is built from the properties of the subfield's current
    value, not from those of the item. *)
Lemma getListInputProps_onChange values errors field index listField options
    r items value val s :
  obj_get values field = VArr r true items ->
  get_field (arr_get items index) listField = Ok value ->
  opt_field val "target" = VUndefined ->
  exists p,
    getListInputProps values errors field index listField options = Ok (Some p) /\
    ip_onChange p val s =
      setListItem values field index
        (VObj (st_next s) (props_set (own_props value) listField val))
        (exec alloc s).
Proof.
  intros Hlist Hvalue Hraw. unfold getListInputProps. rewrite Hlist.
  cbn [isFormList get_index obind]. rewrite Hvalue. cbn [obind].
  destruct (is_checkbox options); eexists; (split; [reflexivity|]);
    cbn [ip_onChange]; rewrite getInputOnChange_raw by done; reflexivity.
Qed.

(** C1, the code at a failing input.  The list [people] holds one item
    with subfields [name] and [age].  The change handler that
    [getListInputProps ("people", 0, "name")] returns, given the new name,
    stores an item whose [name] is the new one but which has no [age]
    any more (and which has picked up the characters of the old name as
    properties). *)
Theorem getListInputProps_onChange_drops_subfields :
  exists p s' item',
    getListInputProps (st_values people_store) (st_errors people_store)
      "people" 0 "name" default_options = Ok (Some p) /\
    opt_index (obj_get (st_values people_store) "people") 0 = person_x /\
    get_field person_x "age" = Ok (VNum 3) /\
    ip_onChange p (VStr "y") people_store = (Ok tt, s') /\
    opt_index (obj_get (st_values s') "people") 0 = item' /\
    own_props item' = [("0", VStr "x"); ("name", VStr "y")] /\
    get_field item' "name" = Ok (VStr "y") /\
    get_field item' "age" = Ok VUndefined.
Proof.
  eexists _, _, _. split; [reflexivity|].
  split; [reflexivity|]. split; [reflexivity|].
  split; [vm_compute; reflexivity|].
  split; [reflexivity|]. split; [reflexivity|]. split; reflexivity.
Qed.

(** C2, the code at a failing input.  [people] is list-tagged and has
    one item; asking for the binding of index 1 raises a TypeError where
    the claim promises the undefined result.  (A field that is not
    list-tagged does get the undefined result.) *)
Theorem getListInputProps_out_of_range_raises :
  obj_get (st_values people_store) "people" = VArr 2%nat true [person_x] /\
  getListInputProps (st_values people_store) (st_errors people_store)
    "people" 1 "name" default_options = Throw TypeError /\
  getListInputProps (st_values people_store) (st_errors people_store)
    "n" 1 "name" default_options = Ok None.
Proof. repeat split. Qed.


(* ===================================================================== *)
(** ** More on property lists and arrays *)
(* ===================================================================== *)

Lemma props_get_delete_eq ps k : props_get (props_delete ps k) k = VUndefined.
Proof.
  induction ps as [|[k' v'] ps IH]; cbn; [done|].
  destruct (String.eqb k k') eqn:E; cbn; [done|]. by rewrite E.
Qed.

Lemma props_delete_absent ps k : props_has ps k = false -> props_delete ps k = ps.
Proof.
  induction ps as [|[k' v'] ps IH]; cbn; [done|].
  destruct (String.eqb k k'); [done|]. intros Hno. by rewrite IH.
Qed.

Lemma props_delete_set_absent ps k v :
  props_has ps k = false -> props_delete (props_set ps k v) k = ps.
Proof.
  induction ps as [|[k' v'] ps IH]; cbn.
  - by rewrite String.eqb_refl.
  - destruct (String.eqb k k') eqn:E; [done|]. intros Hno. cbn. by rewrite E, IH.
Qed.

Lemma props_set_set ps k v w : props_set (props_set ps k v) k w = props_set ps k w.
Proof.
  induction ps as [|[k' v'] ps IH]; cbn.
  - by rewrite String.eqb_refl.
  - destruct (String.eqb k k') eqn:E; cbn; rewrite E; [done|]. by rewrite IH.
Qed.

Lemma props_delete_delete ps k : props_delete (props_delete ps k) k = props_delete ps k.
Proof. apply props_delete_absent, props_has_delete. Qed.


Lemma arr_get_of_lookup items i x :
  0 <= i -> items !! Z.to_nat i = Some x -> arr_get items i = x.
Proof.
  intros H0 Hx. unfold arr_get. destruct (Z.ltb_spec i 0); [lia|].
  by apply nth_lookup_Some.
Qed.

Lemma arr_set_in_range items i v :
  in_range (length items) i -> arr_set items i v = <[Z.to_nat i := v]> items.
Proof.
  intros [H0 Hlt]. unfold arr_set. destruct (Z.ltb_spec i 0); [lia|].
  destruct (Nat.ltb_spec (Z.to_nat i) (length items)); [done|lia].
Qed.

Lemma arr_get_insert_ne items n v j :
  j ≠ Z.of_nat n -> arr_get (<[n := v]> items) j = arr_get items j.
Proof.
  intros Hne. unfold arr_get. destruct (Z.ltb_spec j 0); [done|].
  rewrite !nth_lookup, list_lookup_insert_ne by lia. done.
Qed.

(* ===================================================================== *)
(** ** The list-field operations, one by one and together *)
(* ===================================================================== *)

Lemma setListItem_run s values field index value r items :
  obj_get values field = VArr r true items ->
  arr_get items index ≠ VUndefined ->
  setListItem values field index value s =
  setFieldValue field (VArr (st_next s) true (arr_set items index value)) (exec alloc s).
Proof.
  intros Hlist Hitem. unfold setListItem. rewrite Hlist.
  cbn [isFormList get_index]. unfold bind at 1, lift at 1.
  destruct (arr_get items index); try done; reflexivity.
Qed.

Lemma setListItem_noop s values field index value r items :
  obj_get values field = VArr r true items ->
  arr_get items index = VUndefined ->
  setListItem values field index value s = (Ok tt, s).
Proof.
  intros Hlist Hitem. unfold setListItem. rewrite Hlist.
  cbn [isFormList get_index]. unfold bind at 1, lift at 1. by rewrite Hitem.
Qed.

Lemma list_op_not_list values field op s :
  isFormList (obj_get values field) = false ->
  run_list_op values field op s = (Ok tt, s).
Proof.
  intros Hno. destruct op; cbn [run_list_op];
    unfold setListItem, addListItem, removeListItem, reorderListItem;
    cbv zeta; rewrite Hno; reflexivity.
Qed.

Lemma undefined_or_defined (v : Value) : v = VUndefined \/ v ≠ VUndefined.
Proof. destruct v; auto; right; discriminate. Qed.

Lemma isFormList_inv v :
  isFormList v = true -> exists r items, v = VArr r true items.
Proof. destruct v as [| | | | |r [] items|]; try discriminate. eauto. Qed.

(** Whatever the render shows and whatever the store holds, a list
    operation returns, and it either leaves the store alone or stores,
    through [setFieldValue], a tagged list computed from the values of
    the render. *)
Lemma list_op_effect values field op :
  (forall s, run_list_op values field op s = (Ok tt, s)) \/
  (exists items, forall s,
     run_list_op values field op s =
     setFieldValue field (VArr (st_next s) true items) (exec alloc s)).
Proof.
  destruct (isFormList (obj_get values field)) eqn:Htag;
    [|left; intros s; by apply list_op_not_list].
  apply isFormList_inv in Htag as (r & items & Hlist).
  destruct op as [index value|payload|indices|from to]; cbn [run_list_op].
  - destruct (undefined_or_defined (arr_get items index)) as [Hu|Hd].
    + left. intros s. by apply (setListItem_noop _ _ _ _ _ r items).
    + right. eexists. intros s. by apply (setListItem_run _ _ _ _ _ r items).
  - right. eexists. intros s. unfold addListItem. rewrite Hlist. reflexivity.
  - right. eexists. intros s. unfold removeListItem. rewrite Hlist. reflexivity.
  - destruct (undefined_or_defined (arr_get items from)) as [Hu|Hd];
      [|destruct (undefined_or_defined (arr_get items to)) as [Hu|Hd']].
    + left. intros s. unfold reorderListItem. rewrite Hlist.
      cbn [isFormList get_index]. unfold bind at 1, lift at 1. by rewrite Hu.
    + left. intros s. unfold reorderListItem. rewrite Hlist. cbn [isFormList get_index].
      unfold bind at 1, lift at 1. destruct (arr_get items from); try done;
        cbn [is_defined]; unfold bind at 1, lift at 1; by rewrite Hu.
    + right. exists (splice (splice items from 1 []) to 0 [arr_get items from]).
      intros s. unfold reorderListItem. rewrite Hlist.
      cbn [isFormList get_index]. unfold bind at 1, lift at 1.
      destruct (arr_get items from) eqn:Ef; try done;
        cbn [is_defined]; unfold bind at 1, lift at 1;
        destruct (arr_get items to) eqn:Et; try done; cbn [is_defined];
        unfold bind, lift, spread_array, alloc, ret, exec; cbn; rewrite ?Ef; reflexivity.
Qed.

(** X1. On a list-tagged field, when there is an item at [index],
    [setListItem (field, index, value)] stores a tagged list of the same
    length in which the item at [index] is [value] and every other index
    holds the item it held before, and removes the field's ErrorStore
    key. *)
Theorem setListItem_replaces_item (s : Store) (field : string) (index : Z)
    (value : Value) (r : Ref) (items : list Value) :
  obj_get (st_values s) field = VArr r true items ->
  arr_get items index ≠ VUndefined ->
  exists s' r' items',
    perform (fun values => setListItem values field index value) s = (Ok tt, s') /\
    obj_get (st_values s') field = VArr r' true items' /\
    items' = <[Z.to_nat index := value]> items /\
    length items' = length items /\
    arr_get items' index = value /\
    (forall j, j ≠ index -> arr_get items' j = arr_get items j) /\
    obj_has (st_errors s') field = false.
Proof.
  intros Hlist Hitem.
  pose proof (arr_get_defined_in_range _ _ Hitem) as Hrange.
  unfold perform. rewrite (setListItem_run _ _ _ _ _ _ _ Hlist Hitem), setFieldValue_run.
  rewrite (arr_set_in_range _ _ _ Hrange).
  eexists _, (st_next s), _. split; [reflexivity|].
  split; [apply props_get_set_eq|]. split; [reflexivity|].
  split; [apply length_insert|].
  split.
  - apply arr_get_of_lookup; [apply Hrange|].
    apply list_lookup_insert_eq. unfold in_range in Hrange. lia.
  - split; [|apply props_has_delete].
    intros j Hj. apply arr_get_insert_ne. unfold in_range in Hrange. lia.
Qed.

Lemma setListItem_replaces_item_witness :
  exists s' r',
    perform (fun values => setListItem values "abcd" 2 (VStr "Z")) abcd_store = (Ok tt, s') /\
    obj_get (st_values s') "abcd" = VArr r' true [VStr "A"; VStr "B"; VStr "Z"; VStr "D"].
Proof.
  destruct (setListItem_replaces_item abcd_store "abcd" 2 (VStr "Z") 1%nat
              [VStr "A"; VStr "B"; VStr "C"; VStr "D"])
    as (s' & r' & items' & Hrun & Hget & Hitems & _).
  - reflexivity.
  - discriminate.
  - exists s', r'. split; [exact Hrun|]. rewrite Hget, Hitems. reflexivity.
Defined.

(** X2. On a list-tagged field, [setListItem] with an index that has no
    item behind it (negative, at or past the end, or an item that is
    [undefined]) changes nothing: the list does not grow, the field's
    error stays, no object is allocated. *)
Theorem setListItem_without_item_is_noop (s : Store) (field : string) (index : Z)
    (value : Value) (r : Ref) (items : list Value) :
  obj_get (st_values s) field = VArr r true items ->
  ~ in_range (length items) index \/ arr_get items index = VUndefined ->
  perform (fun values => setListItem values field index value) s = (Ok tt, s).
Proof.
  intros Hlist Hno. unfold perform. apply (setListItem_noop _ _ _ _ _ r items Hlist).
  destruct Hno as [Hout | Hundef]; [by apply arr_get_out_of_range | done].
Qed.

Lemma setListItem_without_item_is_noop_witness :
  perform (fun values => setListItem values "abcd" 4 (VStr "E")) abcd_store
    = (Ok tt, abcd_store) /\
  perform (fun values => setListItem values "abcd" (-1) (VStr "E")) abcd_store
    = (Ok tt, abcd_store).
Proof.
  split.
  - apply (setListItem_without_item_is_noop abcd_store "abcd" 4 (VStr "E") 1%nat
             [VStr "A"; VStr "B"; VStr "C"; VStr "D"]); [reflexivity|].
    left. unfold in_range. cbn. lia.
  - apply (setListItem_without_item_is_noop abcd_store "abcd" (-1) (VStr "E") 1%nat
             [VStr "A"; VStr "B"; VStr "C"; VStr "D"]); [reflexivity|].
    right. reflexivity.
Defined.

(** X3. On a field that is not list-tagged (absent, a scalar, or a plain
    array without the tag) each of [setListItem], [addListItem],
    [removeListItem] and [reorderListItem] returns without changing the
    store. *)
Theorem list_ops_need_the_list_tag (s : Store) (field : string) (op : ListOp) :
  isFormList (obj_get (st_values s) field) = false ->
  perform (fun values => run_list_op values field op) s = (Ok tt, s).
Proof. intros Hno. unfold perform. by apply list_op_not_list. Qed.

Lemma list_ops_need_the_list_tag_witness :
  perform (fun values => addListItem values "tags" (VStr "c")) plain_store
    = (Ok tt, plain_store) /\
  perform (fun values => removeListItem values "missing" (OneIndex 0)) plain_store
    = (Ok tt, plain_store).
Proof.
  split.
  - apply (list_ops_need_the_list_tag plain_store "tags" (OpAddListItem (VStr "c"))).
    reflexivity.
  - apply (list_ops_need_the_list_tag plain_store "missing" (OpRemoveListItem (OneIndex 0))).
    reflexivity.
Defined.

(** X4. On a list-tagged field, [addListItem (field, payload)] stores a
    tagged list that is one longer, holds [payload] at the old length and
    the old items at their old indices, and removes the field's
    ErrorStore key. *)
Theorem addListItem_appends (s : Store) (field : string) (payload : Value)
    (r : Ref) (items : list Value) :
  obj_get (st_values s) field = VArr r true items ->
  exists s' r' items',
    perform (fun values => addListItem values field payload) s = (Ok tt, s') /\
    obj_get (st_values s') field = VArr r' true items' /\
    length items' = S (length items) /\
    arr_get items' (Z.of_nat (length items)) = payload /\
    (forall j, in_range (length items) j -> arr_get items' j = arr_get items j) /\
    obj_has (st_errors s') field = false.
Proof.
  intros Hlist. rewrite (addListItem_run _ _ _ _ _ Hlist), setFieldValue_run.
  eexists _, (st_next s), _. split; [reflexivity|].
  split; [apply props_get_set_eq|].
  split; [rewrite length_app; cbn; lia|].
  split.
  - apply arr_get_of_lookup; [lia|]. rewrite Nat2Z.id.
    rewrite lookup_app_r by lia. by rewrite Nat.sub_diag.
  - split; [|apply props_has_delete].
    intros j Hj. apply arr_get_of_lookup; [apply Hj|].
    rewrite lookup_app_l by (unfold in_range in Hj; lia).
    by apply arr_get_lookup.
Qed.

Lemma addListItem_appends_witness :
  exists s' r' items',
    perform (fun values => addListItem values "abcd" (VStr "E")) abcd_store = (Ok tt, s') /\
    obj_get (st_values s') "abcd" = VArr r' true items' /\
    length items' = 5%nat /\
    arr_get items' 4 = VStr "E" /\
    obj_has (st_errors s') "abcd" = false.
Proof.
  destruct (addListItem_appends abcd_store "abcd" (VStr "E") 1%nat
              [VStr "A"; VStr "B"; VStr "C"; VStr "D"])
    as (s' & r' & items' & Hrun & Hget & Hlen & Hlast & _ & Herr).
  - reflexivity.
  - exists s', r', items'. repeat split; assumption.
Defined.

(** X5. A list operation on [field] never raises and never touches
    another field: whatever the operation and whatever the form holds,
    the values and the errors of every other field are as they were, and
    nothing is called on the outside. *)
Theorem list_op_frame (s : Store) (field : string) (op : ListOp) (other : string) :
  other ≠ field ->
  exists s',
    perform (fun values => run_list_op values field op) s = (Ok tt, s') /\
    obj_get (st_values s') other = obj_get (st_values s) other /\
    obj_has (st_values s') other = obj_has (st_values s) other /\
    obj_get (st_errors s') other = obj_get (st_errors s) other /\
    obj_has (st_errors s') other = obj_has (st_errors s) other /\
    st_calls s' = st_calls s.
Proof.
  intros Hne. unfold perform.
  destruct (list_op_effect (st_values s) field op) as [Hnoop | [items Hset]].
  - exists s. rewrite Hnoop. repeat split.
  - rewrite Hset, setFieldValue_run. eexists. split; [reflexivity|].
    unfold obj_get, obj_has. cbn.
    split; [by apply props_get_set_ne|].
    split.
    { rewrite props_has_set. apply String.eqb_neq in Hne. by rewrite Hne. }
    split; [by apply props_get_delete_ne|].
    split; [by apply props_has_delete_ne|done].
Qed.

Lemma list_op_frame_witness :
  exists s',
    perform (fun values => run_list_op values "people" (OpRemoveListItem (OneIndex 0)))
      people_store = (Ok tt, s') /\
    obj_get (st_values s') "n" = VNum 1 /\
    obj_get (st_errors s') "n" = VStr "required".
Proof.
  destruct (list_op_frame people_store "people" (OpRemoveListItem (OneIndex 0)) "n")
    as (s' & Hrun & Hv & _ & He & _).
  - discriminate.
  - exists s'. split; [exact Hrun|]. rewrite Hv, He. split; reflexivity.
Defined.

(** X6. Two list operations on the same field issued from one render do
    not add up.  Each reads the list from the values of the render, so
    when the second one takes effect the list it stores is the list it
    would have stored had the first never run: the first change is lost. *)
Theorem second_list_op_overwrites_first (values : JsObject) (field : string)
    (op1 op2 : ListOp) (s : Store) :
  run_list_op values field op2 s ≠ (Ok tt, s) ->
  exists r1 r2 items,
    obj_get (st_values (exec (run_list_op values field op2)
                          (exec (run_list_op values field op1) s))) field
      = VArr r1 true items /\
    obj_get (st_values (exec (run_list_op values field op2) s)) field
      = VArr r2 true items.
Proof.
  intros Heffect.
  destruct (list_op_effect values field op2) as [Hnoop | [items Hset]].
  - by rewrite Hnoop in Heffect.
  - assert (Hstored : forall s0,
              obj_get (st_values (exec (run_list_op values field op2) s0)) field
              = VArr (st_next s0) true items).
    { intros s0. unfold exec at 1. rewrite Hset. apply setFieldValue_field_lookup. }
    exists (st_next (exec (run_list_op values field op1) s)), (st_next s), items.
    by rewrite !Hstored.
Qed.

Lemma second_list_op_overwrites_first_witness :
  exists r1,
    obj_get
      (st_values
         (exec (addListItem (st_values abcd_store) "abcd" (VStr "F"))
            (exec (addListItem (st_values abcd_store) "abcd" (VStr "E")) abcd_store)))
      "abcd"
    = VArr r1 true [VStr "A"; VStr "B"; VStr "C"; VStr "D"; VStr "F"].
Proof.
  destruct (second_list_op_overwrites_first (st_values abcd_store) "abcd"
              (OpAddListItem (VStr "E")) (OpAddListItem (VStr "F")) abcd_store)
    as (r1 & r2 & items & Hboth & Halone).
  - discriminate.
  - exists r1. cbn [run_list_op] in Hboth, Halone. rewrite Hboth.
    vm_compute in Halone. injection Halone as _ Hitems. by rewrite Hitems.
Defined.

(** X7. With a render between them, two [addListItem] calls on a
    list-tagged field append both payloads, in the order of the calls:
    the list left by the first call still carries the tag the second
    call looks for. *)
Theorem addListItem_twice_appends_both (s : Store) (field : string)
    (p1 p2 : Value) (r : Ref) (items : list Value) :
  obj_get (st_values s) field = VArr r true items ->
  exists r',
    obj_get
      (st_values
         (rerender (fun values => addListItem values field p2)
            (rerender (fun values => addListItem values field p1) s)))
      field
    = VArr r' true (items ++ [p1; p2]).
Proof.
  intros Hlist. unfold rerender at 2.
  rewrite (addListItem_run _ _ _ _ _ Hlist), setFieldValue_run. cbn [snd].
  unfold rerender. erewrite addListItem_run; [|apply props_get_set_eq].
  rewrite setFieldValue_run. cbn [snd st_values].
  eexists. unfold obj_get. cbn [obj_props]. rewrite props_get_set_eq.
  by rewrite <- app_assoc.
Qed.

Lemma addListItem_twice_appends_both_witness :
  exists r',
    obj_get
      (st_values
         (rerender (fun values => addListItem values "abcd" (VStr "F"))
            (rerender (fun values => addListItem values "abcd" (VStr "E")) abcd_store)))
      "abcd"
    = VArr r' true [VStr "A"; VStr "B"; VStr "C"; VStr "D"; VStr "E"; VStr "F"].
Proof.
  destruct (addListItem_twice_appends_both abcd_store "abcd" (VStr "E") (VStr "F") 1%nat
              [VStr "A"; VStr "B"; VStr "C"; VStr "D"]) as (r' & Hget).
  - reflexivity.
  - exists r'. exact Hget.
Defined.

Lemma reinsert_Permutation n x l : reinsert n x l ≡ₚ x :: l.
Proof.
  unfold reinsert. rewrite <- Permutation_middle. by rewrite take_drop.
Qed.

Lemma reinsert_same_index n x l :
  l !! n = Some x -> reinsert n x (delete n l) = l.
Proof.
  intros Hx. unfold reinsert. rewrite delete_take_drop.
  assert (Hn : n = length (take n l)).
  { apply lookup_lt_Some in Hx. rewrite length_take. lia. }
  rewrite take_app_length', drop_app_length' by done.
  by apply take_drop_middle.
Qed.

(** X8. [reorderListItem] only rearranges: when both indices reference an
    item, the list it stores is a permutation of the list it found (no
    item lost, none duplicated); with [from] equal to [to] the items stay
    where they are, yet the field's ErrorStore key is still removed. *)
Theorem reorderListItem_permutes (s : Store) (field : string) (r : Ref)
    (items : list Value) (from to : Z) :
  obj_get (st_values s) field = VArr r true items ->
  arr_get items from ≠ VUndefined ->
  arr_get items to ≠ VUndefined ->
  exists s' r' moved,
    perform (fun values => reorderListItem values field from to) s = (Ok tt, s') /\
    obj_get (st_values s') field = VArr r' true moved /\
    moved ≡ₚ items /\
    (from = to -> moved = items) /\
    obj_has (st_errors s') field = false.
Proof.
  intros Hlist Hfrom Hto.
  pose proof (arr_get_defined_in_range _ _ Hfrom) as Rfrom.
  pose proof (arr_get_defined_in_range _ _ Hto) as Rto.
  pose proof (arr_get_lookup _ _ Rfrom) as Lfrom.
  rewrite (reorderListItem_run _ _ _ _ _ _ Hlist Hfrom Hto), setFieldValue_run.
  rewrite (splice_remove_one _ _ Rfrom).
  rewrite splice_insert_one.
  2:{ rewrite length_delete by eauto. unfold in_range in *. lia. }
  eexists _, (st_next s), _. split; [reflexivity|].
  split; [apply props_get_set_eq|].
  split; [|split; [|apply props_has_delete]].
  - rewrite reinsert_Permutation. symmetry. by apply delete_Permutation.
  - intros <-. by apply reinsert_same_index.
Qed.

Lemma reorderListItem_permutes_witness :
  exists s' r',
    perform (fun values => reorderListItem values "abcd" 1 1) abcd_store = (Ok tt, s') /\
    obj_get (st_values s') "abcd" = VArr r' true [VStr "A"; VStr "B"; VStr "C"; VStr "D"] /\
    obj_has (st_errors abcd_store) "abcd" = true /\
    obj_has (st_errors s') "abcd" = false.
Proof.
  destruct (reorderListItem_permutes abcd_store "abcd" 1%nat
              [VStr "A"; VStr "B"; VStr "C"; VStr "D"] 1 1)
    as (s' & r' & moved & Hrun & Hget & _ & Hsame & Herr).
  - reflexivity.
  - discriminate.
  - discriminate.
  - exists s', r'. split; [exact Hrun|]. rewrite Hget, (Hsame eq_refl).
    split; [reflexivity|]. split; [reflexivity|exact Herr].
Defined.

Lemma arr_get_defined_of_Forall items i :
  Forall (fun x => x ≠ VUndefined) items ->
  in_range (length items) i -> arr_get items i ≠ VUndefined.
Proof.
  intros Hall Hi. pose proof (arr_get_lookup _ _ Hi) as Hl.
  by apply (Forall_lookup_1 _ _ _ _ Hall Hl).
Qed.

(** The list [reorderListItem] stores, in terms of removal and
    reinsertion. *)
Lemma reorderListItem_moved s field from to r items :
  obj_get (st_values s) field = VArr r true items ->
  arr_get items from ≠ VUndefined ->
  arr_get items to ≠ VUndefined ->
  obj_get (st_values (rerender (fun values => reorderListItem values field from to) s)) field
  = VArr (st_next s) true
      (reinsert (Z.to_nat to) (arr_get items from) (delete (Z.to_nat from) items)).
Proof.
  intros Hlist Hfrom Hto.
  pose proof (arr_get_defined_in_range _ _ Hfrom) as Rfrom.
  pose proof (arr_get_defined_in_range _ _ Hto) as Rto.
  pose proof (arr_get_lookup _ _ Rfrom) as Lfrom.
  unfold rerender. rewrite (reorderListItem_run _ _ _ _ _ _ Hlist Hfrom Hto).
  rewrite (splice_remove_one _ _ Rfrom), splice_insert_one.
  - apply setFieldValue_field_lookup.
  - rewrite length_delete by eauto. unfold in_range in *. lia.
Qed.

(** X9. Moving an item and moving it back restores the list: on a
    list-tagged field whose items are all defined, [reorderListItem] from
    [from] to [to] followed, in the next render, by [reorderListItem]
    from [to] to [from] leaves the items in their original order. *)
Theorem reorderListItem_there_and_back (s : Store) (field : string) (r : Ref)
    (items : list Value) (from to : Z) :
  obj_get (st_values s) field = VArr r true items ->
  Forall (fun x => x ≠ VUndefined) items ->
  in_range (length items) from ->
  in_range (length items) to ->
  exists r',
    obj_get
      (st_values
         (rerender (fun values => reorderListItem values field to from)
            (rerender (fun values => reorderListItem values field from to) s)))
      field
    = VArr r' true items.
Proof.
  intros Hlist Hall Rfrom Rto.
  pose proof (arr_get_defined_of_Forall _ _ Hall Rfrom) as Hfrom.
  pose proof (arr_get_defined_of_Forall _ _ Hall Rto) as Hto.
  pose proof (arr_get_lookup _ _ Rfrom) as Lfrom.
  pose proof (reorderListItem_moved _ _ _ _ _ _ Hlist Hfrom Hto) as Hmoved.
  set (s1 := rerender (fun values => reorderListItem values field from to) s) in *.
  set (x := arr_get items from) in *.
  set (moved := reinsert (Z.to_nat to) x (delete (Z.to_nat from) items)) in *.
  assert (Hlen : length (delete (Z.to_nat from) items) = pred (length items))
    by (rewrite length_delete by eauto; lia).
  assert (Hto' : (Z.to_nat to <= length (delete (Z.to_nat from) items))%nat)
    by (unfold in_range in *; lia).
  assert (Hlenm : length moved = length items).
  { unfold moved. rewrite length_reinsert, Hlen. unfold in_range in *. lia. }
  assert (Hallm : Forall (fun y => y ≠ VUndefined) moved).
  { unfold moved. rewrite reinsert_Permutation. constructor; [done|].
    by apply Forall_delete. }
  assert (Hx : arr_get moved to = x).
  { apply arr_get_of_lookup; [apply Rto|]. by apply reinsert_lookup. }
  assert (Hback1 : arr_get moved to ≠ VUndefined) by (rewrite Hx; done).
  assert (Hback2 : arr_get moved from ≠ VUndefined).
  { apply arr_get_defined_of_Forall; [done|]. by rewrite Hlenm. }
  rewrite (reorderListItem_moved _ _ _ _ _ _ Hmoved Hback1 Hback2).
  eexists. f_equal. rewrite Hx. unfold moved.
  rewrite delete_reinsert by done. by apply reinsert_same_index.
Qed.

Lemma reorderListItem_there_and_back_witness :
  exists r',
    obj_get
      (st_values
         (rerender (fun values => reorderListItem values "abcd" 3 0)
            (rerender (fun values => reorderListItem values "abcd" 0 3) abcd_store)))
      "abcd"
    = VArr r' true [VStr "A"; VStr "B"; VStr "C"; VStr "D"].
Proof.
  apply (reorderListItem_there_and_back abcd_store "abcd" 1%nat
           [VStr "A"; VStr "B"; VStr "C"; VStr "D"] 0 3).
  - reflexivity.
  - repeat constructor; discriminate.
  - unfold in_range. cbn. lia.
  - unfold in_range. cbn. lia.
Defined.

(* ===================================================================== *)
(** ** Values, errors and the plain input binding together *)
(* ===================================================================== *)

Lemma props_delete_set ps k v : props_delete (props_set ps k v) k = props_delete ps k.
Proof.
  induction ps as [|[k' v'] ps IH]; cbn.
  - by rewrite String.eqb_refl.
  - destruct (String.eqb k k') eqn:E; cbn; rewrite E; [done|]. by rewrite IH.
Qed.

(** X10. [setFieldValue] creates the field when the form has none of that
    name and otherwise overwrites it in place, and the last write wins:
    setting a field twice leaves the values and the errors with the
    content that the second call alone would have left. *)
Theorem setFieldValue_last_write_wins (s : Store) (field : string) (v w : Value) :
  obj_props (st_values (exec (setFieldValue field w) (exec (setFieldValue field v) s)))
    = obj_props (st_values (exec (setFieldValue field w) s)) /\
  obj_props (st_errors (exec (setFieldValue field w) (exec (setFieldValue field v) s)))
    = obj_props (st_errors (exec (setFieldValue field w) s)) /\
  (forall k, obj_has (st_values (exec (setFieldValue field w) s)) k
             = String.eqb k field || obj_has (st_values s) k).
Proof.
  unfold exec. rewrite !setFieldValue_run. cbn.
  split; [apply props_set_set|]. split; [apply props_delete_delete|].
  intros k. apply props_has_set.
Qed.

(** X11. Writes to different fields do not interfere: setting [f] and
    then [g] gives a form in which every field reads as it does after
    setting [g] and then [f], and in both orders neither field keeps an
    error. *)
Theorem setFieldValue_fields_commute (s : Store) (f g : string) (v w : Value) :
  f ≠ g ->
  forall k,
    obj_get (st_values (exec (setFieldValue g w) (exec (setFieldValue f v) s))) k
      = obj_get (st_values (exec (setFieldValue f v) (exec (setFieldValue g w) s))) k /\
    obj_has (st_errors (exec (setFieldValue g w) (exec (setFieldValue f v) s))) k
      = obj_has (st_errors (exec (setFieldValue f v) (exec (setFieldValue g w) s))) k /\
    obj_has (st_errors (exec (setFieldValue g w) (exec (setFieldValue f v) s))) f = false /\
    obj_has (st_errors (exec (setFieldValue g w) (exec (setFieldValue f v) s))) g = false.
Proof.
  intros Hne k. unfold exec. rewrite !setFieldValue_run.
  unfold obj_get, obj_has. cbn.
  assert (Hne' : g ≠ f) by congruence.
  split; [|split; [|split]].
  - destruct (String.eqb_spec k f) as [->|Hkf].
    + rewrite props_get_set_ne, !props_get_set_eq by done. done.
    + destruct (String.eqb_spec k g) as [->|Hkg].
      * rewrite props_get_set_eq, props_get_set_ne, props_get_set_eq by done. done.
      * rewrite !props_get_set_ne by done. done.
  - destruct (String.eqb_spec k f) as [->|Hkf].
    + rewrite props_has_delete_ne, !props_has_delete by done. done.
    + destruct (String.eqb_spec k g) as [->|Hkg].
      * rewrite props_has_delete, props_has_delete_ne, props_has_delete by done. done.
      * rewrite !props_has_delete_ne by done. done.
  - rewrite props_has_delete_ne by done. apply props_has_delete.
  - apply props_has_delete.
Qed.

Lemma setFieldValue_fields_commute_witness :
  obj_get (st_values (exec (setFieldValue "n" (VNum 2))
                        (exec (setFieldValue "city" (VStr "Oslo")) people_store))) "city"
    = VStr "Oslo" /\
  obj_get (st_values (exec (setFieldValue "city" (VStr "Oslo"))
                        (exec (setFieldValue "n" (VNum 2)) people_store))) "city"
    = VStr "Oslo".
Proof.
  destruct (setFieldValue_fields_commute people_store "city" "n" (VStr "Oslo") (VNum 2))
    with (k := "city"%string) as (Hget & _).
  - discriminate.
  - split; [|rewrite <- Hget]; reflexivity.
Defined.

(** X12. [setFieldError] followed by [clearFieldError] on the same field
    leaves the ErrorStore with the content [clearFieldError] alone would
    leave; on a field that had no error this is the content it had, so
    clearing an absent key changes no key. *)
Theorem setFieldError_then_clearFieldError (s : Store) (field : string) (err : Value) :
  obj_props (st_errors (exec (clearFieldError field) (exec (setFieldError field err) s)))
    = obj_props (st_errors (exec (clearFieldError field) s)) /\
  (obj_has (st_errors s) field = false ->
     obj_props (st_errors (exec (clearFieldError field) s)) = obj_props (st_errors s)) /\
  st_values (exec (clearFieldError field) (exec (setFieldError field err) s)) = st_values s.
Proof.
  unfold exec. rewrite !clearFieldError_run, setFieldError_run. cbn.
  split; [apply props_delete_set|]. split; [apply props_delete_absent|done].
Qed.

(** X13. After [setFieldError (field, error)], the next render's
    [getInputProps (field)] carries that error exactly when [withError]
    is on and the error is truthy: an error such as the empty string or
    [null] sits in the store but is never handed to the control.  The
    bound value is not affected. *)
Theorem getInputProps_after_setFieldError (s : Store) (field : string) (err : Value)
    (options : Options) :
  ip_error (getInputProps (st_values (exec (setFieldError field err) s))
              (st_errors (exec (setFieldError field err) s)) field options)
    = (if withError options && truthy err then Some err else None) /\
  obj_get (st_errors (exec (setFieldError field err) s)) field = err /\
  st_values (exec (setFieldError field err) s) = st_values s.
Proof.
  unfold exec. rewrite setFieldError_run. cbn [snd st_values st_errors].
  unfold getInputProps, obj_get. cbn [obj_props]. rewrite props_get_set_eq.
  split; [|done]. by destruct (is_checkbox options).
Qed.



(* ===================================================================== *)
(** ** Validation *)
(* ===================================================================== *)


Section Validation.

Context {Rules : Type}.
Variable validateValues : Rules -> JsObject -> FormValidationResult.
Variable validateFieldValue : string -> Rules -> JsObject -> FormFieldValidationResult.
Variable rules : Rules.


(** X17. [validateField (field)] returns what the field validator says
    and touches that field's error only: the key is removed when the
    result is valid and set to the reported error when it is not; every
    other key of the ErrorStore and the values cell are as they were. *)
Theorem validateField_touches_one_error (s : Store) (field : string) :
  exists s',
    perform (fun values => validateField validateFieldValue rules values field) s
      = (Ok (validateFieldValue field rules (st_values s)), s') /\
    st_values s' = st_values s /\
    (valid (validateFieldValue field rules (st_values s)) = true ->
       obj_has (st_errors s') field = false) /\
    (valid (validateFieldValue field rules (st_values s)) = false ->
       obj_has (st_errors s') field = true /\
       obj_get (st_errors s') field = error (validateFieldValue field rules (st_values s))) /\
    (forall other, other ≠ field ->
       obj_has (st_errors s') other = obj_has (st_errors s) other /\
       obj_get (st_errors s') other = obj_get (st_errors s) other).
Proof.
  unfold perform, validateField.
  destruct (valid (validateFieldValue field rules (st_values s))) eqn:Hvalid.
  - unfold bind. rewrite clearFieldError_run. eexists. split; [reflexivity|].
    unfold obj_has, obj_get. cbn.
    split; [done|]. split; [intros _; apply props_has_delete|].
    split; [discriminate|]. intros other Hne.
    split; [by apply props_has_delete_ne | by apply props_get_delete_ne].
  - unfold bind. rewrite setFieldError_run. eexists. split; [reflexivity|].
    unfold obj_has, obj_get. cbn.
    split; [done|]. split; [discriminate|].
    split.
    + intros _. rewrite props_has_set, String.eqb_refl, props_get_set_eq. done.
    + intros other Hne. rewrite props_has_set, props_get_set_ne by done.
      apply String.eqb_neq in Hne. by rewrite Hne.
Qed.

End Validation.

(* ===================================================================== *)
(** ** The list-item binding once more *)
(* ===================================================================== *)



(** X19. What [setListItem] stores is what the binding reads back: after
    [setListItem (field, index, item)] with a record [item] at an index
    that had an item, the next render's [getListInputProps] for that
    index binds the subfield of [item] and carries no error. *)
Theorem getListInputProps_after_setListItem (s : Store) (field : string) (index : Z)
    (listField : string) (options : Options)
    (r : Ref) (items : list Value) (ref : Ref) (props : Props) :
  obj_get (st_values s) field = VArr r true items ->
  arr_get items index ≠ VUndefined ->
  exists p,
    getListInputProps
      (st_values (rerender (fun values => setListItem values field index (VObj ref props)) s))
      (st_errors (rerender (fun values => setListItem values field index (VObj ref props)) s))
      field index listField options = Ok (Some p) /\
    (if is_checkbox options then ip_checked else ip_value) p
      = Some (props_get props listField) /\
    ip_error p = None.
Proof.
  intros Hlist Hitem.
  pose proof (arr_get_defined_in_range _ _ Hitem) as Hrange.
  unfold rerender, perform.
  rewrite (setListItem_run _ _ _ _ _ _ _ Hlist Hitem), setFieldValue_run.
  cbn [snd st_values st_errors]. rewrite (arr_set_in_range _ _ _ Hrange).
  assert (Hnew : arr_get (<[Z.to_nat index := VObj ref props]> items) index
                 = VObj ref props).
  { apply arr_get_of_lookup; [apply Hrange|].
    apply list_lookup_insert_eq. unfold in_range in Hrange. lia. }
  unfold getListInputProps, obj_get. cbn [obj_props].
  rewrite props_get_set_eq, props_get_delete_eq.
  cbn [isFormList get_index obind]. rewrite Hnew. cbn [get_field own_props obind].
  destruct (is_checkbox options); eexists; (split; [reflexivity|]); cbn;
    (split; [done|]); by rewrite andb_false_r.
Qed.

Lemma getListInputProps_after_setListItem_witness :
  exists p,
    getListInputProps
      (st_values (rerender (fun values =>
         setListItem values "people" 0 (VObj 9%nat [("name", VStr "y"); ("age", VNum 4)]))
         people_store))
      (st_errors (rerender (fun values =>
         setListItem values "people" 0 (VObj 9%nat [("name", VStr "y"); ("age", VNum 4)]))
         people_store))
      "people" 0 "age" default_options = Ok (Some p) /\
    ip_value p = Some (VNum 4) /\
    ip_error p = None.
Proof.
  destruct (getListInputProps_after_setListItem people_store "people" 0 "age"
              default_options 2%nat [person_x] 9%nat [("name", VStr "y"); ("age", VNum 4)])
    as (p & Hrun & Hval & Herr).
  - reflexivity.
  - discriminate.
  - exists p. split; [exact Hrun|]. split; [exact Hval|exact Herr].
Defined.
